(** * MontePython: the Metropolis sampler and its base [Sampler]

    A shallow embedding of [MontePython/sampler.py] and
    [MontePython/metropolis_sampler.py].

    - Python floats are IEEE binary64 numbers: Rocq's primitive [float].
    - Python ints are [Z]; [int(a / b)] under [from __future__ import
      division] is the quotient truncated towards zero ([Z.quot]; exact for
      counts below 2^53), [a % b] is [Z.modulo].
    - A position vector is a [list float]; the chain is a list of rows.
      Positions are taken to have the shape of a chain row (length [dim]),
      so that [chain[ind, :] = p] stores [p] itself.
    - numpy is not part of the repository: its random generator, [np.exp]
      and the Python objects handed to [set_state] are the fields of the
      [Numpy] interface below. [set_state] gives the generator it leaves
      also when it raises; [Mt19937] is numpy's own handling of the state
      tuple, which writes to the generator before it has checked the key.
    - The sampler object is mutated by every method: methods are
      computations in a state-and-exception monad over the record
      [Sampler]. *)

From Stdlib Require Import ZArith List Bool Lia Floats.
From Stdlib Require String.
Import ListNotations.

Set Implicit Arguments.
Local Open Scope Z_scope.

(** ** Exceptions and results *)

Inductive exn :=
| ValueError
| IndexError
| TypeError
| ZeroDivisionError
| UnboundLocalError.

Inductive result (A : Type) :=
| Ok (a : A)
| Raise (e : exn).
Arguments Ok {A} a.
Arguments Raise {A} e.

Definition is_Ok {A} (r : result A) : bool :=
  match r with Ok _ => true | Raise _ => false end.

(** ** numpy, as the sampler uses it *)

Definition position := list float.

(** [cov : list or float] *)
Inductive covariance :=
| CovFloat (v : float)
| CovList (m : list (list float)).

(** [np.sqrt], elementwise on a list. *)
Definition np_sqrt (c : covariance) : covariance :=
  match c with
  | CovFloat v => CovFloat (PrimFloat.sqrt v)
  | CovList m => CovList (map (map PrimFloat.sqrt) m)
  end.

Class Numpy := {
  (** the internal state of a [np.random.mtrand.RandomState] object *)
  RandomState : Type;
  (** a Python object other than [None] *)
  pyobj : Type;
  np_exp : float -> float;
  (** [RandomState.normal(loc, scale)]: the draw and the advanced generator *)
  rs_normal : RandomState -> position -> covariance -> position * RandomState;
  (** [RandomState.multivariate_normal(mean, cov)] *)
  rs_multivariate_normal :
    RandomState -> position -> covariance -> position * RandomState;
  (** [RandomState.rand()]: a uniform variate in [0, 1) *)
  rs_rand : RandomState -> float * RandomState;
  (** [RandomState.get_state()] *)
  rs_get_state : RandomState -> pyobj;
  (** [RandomState.set_state(state)] for [state] other than [None]: the
      generator as the call leaves it and, when the call raises, the
      exception. A call that raises need not leave the generator as it
      found it: [set_state] writes fields of the generator before it has
      validated all of [state]. *)
  rs_set_state : pyobj -> RandomState -> RandomState * option exn
}.

(** ** numpy arrays as lists *)

(** [a[ind]] for an integer index: negative indices count from the end. *)
Definition np_index (len ind : Z) : option nat :=
  if (0 <=? ind) && (ind <? len) then Some (Z.to_nat ind)
  else if (- len <=? ind) && (ind <? 0) then Some (Z.to_nat (ind + len))
  else None.

Fixpoint list_set {A} (n : nat) (v : A) (l : list A) : list A :=
  match l, n with
  | [], _ => []
  | _ :: t, O => v :: t
  | h :: t, S n' => h :: list_set n' v t
  end.

(** [a[ind] = v]: [IndexError] out of range. *)
Definition np_setitem {A} (a : list A) (ind : Z) (v : A) : result (list A) :=
  match np_index (Z.of_nat (length a)) ind with
  | Some n => Ok (list_set n v a)
  | None => Raise IndexError
  end.

(** [np.zeros(N)] and [np.zeros((N, dim))] for [N, dim >= 0]. *)
Definition np_zeros (N : Z) : list float := repeat 0%float (Z.to_nat N).
Definition np_zeros2 (N dim : Z) : list (list float) :=
  repeat (np_zeros dim) (Z.to_nat N).

(** What [for x in xs: pass] leaves bound to [x]: nothing for an empty
    sequence. *)
Fixpoint last_bound {A} (xs : list A) : option A :=
  match xs with
  | [] => None
  | [x] => Some x
  | _ :: xs' => last_bound xs'
  end.

(** [range(n)] *)
Definition range (n : Z) : list Z := map Z.of_nat (seq 0 (Z.to_nat n)).

Section MontePython.

Context {numpy : Numpy}.

(** Positional and keyword arguments of the callback. *)
Definition py_args := list pyobj.
Definition py_kwargs := list (nat * pyobj).

(** What [sample] yields and [run] returns: [(p, lnprob, rstate)]. *)
Definition results := (position * float * pyobj)%type.

(** ** The sampler object *)

Record Sampler := mkSampler {
  dim : Z;
  lnprobfn : position -> py_args -> py_kwargs -> float;
  args : py_args;
  kwargs : py_kwargs;
  cov : covariance;
  _random : RandomState;
  _chain : list (list float);
  _lnprob : list float;
  iterations : Z;
  accepted : Z;
  _last_run : option results
}.

Definition set_random (r : RandomState) (s : Sampler) : Sampler :=
  mkSampler (dim s) (lnprobfn s) (args s) (kwargs s) (cov s) r
            (_chain s) (_lnprob s) (iterations s) (accepted s) (_last_run s).
Definition set_chain (c : list (list float)) (s : Sampler) : Sampler :=
  mkSampler (dim s) (lnprobfn s) (args s) (kwargs s) (cov s) (_random s)
            c (_lnprob s) (iterations s) (accepted s) (_last_run s).
Definition set_lnprob (l : list float) (s : Sampler) : Sampler :=
  mkSampler (dim s) (lnprobfn s) (args s) (kwargs s) (cov s) (_random s)
            (_chain s) l (iterations s) (accepted s) (_last_run s).
Definition set_iterations (n : Z) (s : Sampler) : Sampler :=
  mkSampler (dim s) (lnprobfn s) (args s) (kwargs s) (cov s) (_random s)
            (_chain s) (_lnprob s) n (accepted s) (_last_run s).
Definition set_accepted (n : Z) (s : Sampler) : Sampler :=
  mkSampler (dim s) (lnprobfn s) (args s) (kwargs s) (cov s) (_random s)
            (_chain s) (_lnprob s) (iterations s) n (_last_run s).
Definition set_last_run (c : option results) (s : Sampler) : Sampler :=
  mkSampler (dim s) (lnprobfn s) (args s) (kwargs s) (cov s) (_random s)
            (_chain s) (_lnprob s) (iterations s) (accepted s) c.

(** ** Methods: state and exceptions *)

Definition M (A : Type) : Type := Sampler -> Sampler * result A.

Definition ret {A} (a : A) : M A := fun s => (s, Ok a).
Definition raise {A} (e : exn) : M A := fun s => (s, Raise e).
Definition bind {A B} (m : M A) (k : A -> M B) : M B :=
  fun s =>
    match m s with
    | (s', Ok a) => k a s'
    | (s', Raise e) => (s', Raise e)
    end.
Definition gets {A} (f : Sampler -> A) : M A := fun s => (s, Ok (f s)).
Definition modify (f : Sampler -> Sampler) : M unit := fun s => (f s, Ok tt).
Definition lift {A} (r : result A) : M A := fun s => (s, r).
(** [try: m / except: pass] *)
Definition try_except_pass (m : M unit) : M unit :=
  fun s => (fst (m s), Ok tt).

Notation "x <- m ;; k" := (bind m (fun x => k))
  (at level 61, m at next level, right associativity).
Notation "' pat <- m ;; k" := (bind m (fun x => match x with pat => k end))
  (at level 61, pat pattern, m at next level, right associativity).
Notation "m ;;; k" := (bind m (fun _ => k))
  (at level 61, right associativity).

(** *** [Sampler.reset] *)
Definition reset : M unit :=
  d <- gets dim ;;
  (* np.empty((0, self.dim)): negative dimensions are not allowed *)
  (if d <? 0 then raise ValueError else ret tt) ;;;
  modify (set_chain []) ;;;
  modify (set_lnprob []) ;;;
  modify (set_iterations 0) ;;;
  modify (set_accepted 0) ;;;
  modify (set_last_run None).

(** *** [Sampler.__init__] followed by [MetropolisSampler.__init__]; the
    fresh [RandomState()] is seeded by the operating system and is given
    here as [r0]. *)
Definition MetropolisSampler_init (cov0 : covariance) (dim0 : Z)
    (lnprobfn0 : position -> py_args -> py_kwargs -> float)
    (args0 : py_args) (kwargs0 : py_kwargs) (r0 : RandomState)
  : Sampler * result unit :=
  reset (mkSampler dim0 lnprobfn0 args0 kwargs0 cov0 r0 [] [] 0 0 None).

(** *** [random_state] (getter) *)
Definition random_state : M pyobj :=
  gets (fun s => rs_get_state (_random s)).

(** [self._random.set_state(state)]. [set_state(None)] raises [TypeError]
    before it touches the generator; for any other object the generator is
    the one [set_state] leaves, whether it returns or raises. *)
Definition RandomState_set_state (state : option pyobj) : M unit :=
  fun s =>
    match state with
    | None => (s, Raise TypeError)
    | Some o =>
        match rs_set_state o (_random s) with
        | (r, None) => (set_random r s, Ok tt)
        | (r, Some e) => (set_random r s, Raise e)
        end
    end.

(** *** [random_state] (setter) *)
Definition set_random_state (state : option pyobj) : M unit :=
  try_except_pass (RandomState_set_state state).

(** *** [Sampler.get_lnprob] *)
Definition get_lnprob (p : position) : M float :=
  gets (fun s => lnprobfn s p (args s) (kwargs s)).

(** *** [MetropolisSampler.sample]

    [sample] is a generator. Its body up to the loop runs when the
    generator is first advanced ([sample_prologue]); each further advance
    runs the loop body once ([sample_body]) and suspends at the [yield]. *)

(** Lines 87-99: restore the generator state, the starting
    log-probability, the chain extended by [int(iterations / thin)] rows of
    zeros, and [i0 = self.iterations]. Returns the locals [(lnprob, i0)]. *)
Definition sample_prologue (p : position) (lnprob : option float)
    (rstate : option pyobj) (thin : Z) (store_chain : bool) (iters : Z)
  : M (float * Z) :=
  set_random_state rstate ;;;
  lnprob <- match lnprob with
            | None => get_lnprob p
            | Some l => ret l
            end ;;
  (if store_chain then
     (if thin =? 0 then raise ZeroDivisionError else ret tt) ;;;
     let N := Z.quot iters thin in
     d <- gets dim ;;
     (* np.zeros((N, self.dim)) *)
     (if (N <? 0) || (d <? 0) then raise ValueError else ret tt) ;;;
     modify (fun s => set_chain (_chain s ++ np_zeros2 N d) s) ;;;
     modify (fun s => set_lnprob (_lnprob s ++ np_zeros N) s)
   else ret tt) ;;;
  i0 <- gets iterations ;;
  ret (lnprob, i0).

(** Lines 110-116: the acceptance test. Returns the new [(p, lnprob)]. *)
Definition accept_test (p : position) (lnprob : float) (q : position)
    (newlnprob : float) : M (position * float) :=
  let diff := (newlnprob - lnprob)%float in
  diff <- (if (diff <? 0)%float then
             fun s =>
               let (u, r) := rs_rand (_random s) in
               (set_random r s, Ok (np_exp diff - u)%float)
           else ret diff) ;;
  if (0 <? diff)%float then
    modify (fun s => set_accepted (accepted s + 1) s) ;;;
    ret (q, newlnprob)
  else ret (p, lnprob).

(** Lines 118-121: the thinned write into the pre-allocated rows. *)
Definition store (thin : Z) (store_chain : bool) (i0 i : Z) (p : position)
    (lnprob : float) : M unit :=
  if store_chain then
    (if thin =? 0 then raise ZeroDivisionError else ret tt) ;;;
    if i mod thin =? 0 then
      let ind := i0 + Z.quot i thin in
      c <- gets _chain ;;
      c' <- lift (np_setitem c ind p) ;;
      modify (set_chain c') ;;;
      l <- gets _lnprob ;;
      l' <- lift (np_setitem l ind lnprob) ;;
      modify (set_lnprob l')
    else ret tt
  else ret tt.

(** Lines 103-106: the candidate drawn around [p], and the generator
    after the draw. *)
Definition proposal (p : position) (s : Sampler) : position * RandomState :=
  if dim s =? 1 then rs_normal (_random s) p (np_sqrt (cov s))
  else rs_multivariate_normal (_random s) p (cov s).

(** Lines 101-116: one Metropolis step from the locals [(p, lnprob)]. *)
Definition metropolis_step (p : position) (lnprob : float)
  : M (position * float) :=
  modify (fun s => set_iterations (iterations s + 1) s) ;;;
  q <- (fun s => let (q, r) := proposal p s in (set_random r s, Ok q)) ;;
  newlnprob <- get_lnprob q ;;
  accept_test p lnprob q newlnprob.

(** Lines 101-123: the loop body at index [i], from the locals
    [(p, lnprob)]. Returns the new locals and the yielded triple. *)
Definition sample_body (thin : Z) (store_chain : bool) (i0 i : Z)
    (p : position) (lnprob : float) : M (position * float * results) :=
  '(p, lnprob) <- metropolis_step p lnprob ;;
  store thin store_chain i0 i p lnprob ;;;
  rstate <- random_state ;;
  ret (p, lnprob, (p, lnprob, rstate)).

(** [for i in range(iterations): ...], collecting what is yielded. *)
Fixpoint sample_loop (thin : Z) (store_chain : bool) (i0 : Z) (idx : list Z)
    (p : position) (lnprob : float) : M (list results) :=
  match idx with
  | [] => ret []
  | i :: idx' =>
      '(p', lnprob', y) <- sample_body thin store_chain i0 i p lnprob ;;
      ys <- sample_loop thin store_chain i0 idx' p' lnprob' ;;
      ret (y :: ys)
  end.

(** The generator driven to completion: everything it yields, in order. *)
Definition sample (p : position) (lnprob : option float)
    (rstate : option pyobj) (thin : Z) (store_chain : bool) (iters : Z)
  : M (list results) :=
  '(lnprob, i0) <- sample_prologue p lnprob rstate thin store_chain iters ;;
  sample_loop thin store_chain i0 (range iters) p lnprob.

(** *** [Sampler.run]; [thin] and [store_chain] are the [**kwargs] handed
    on to [sample] (defaults [1] and [True]). *)
Definition run (p0 : option position) (N : Z) (lnprob0 : option float)
    (rstate0 : option pyobj) (thin : Z) (store_chain : bool) : M results :=
  '(p0, lnprob0, rstate0) <-
    match p0 with
    | None =>
        ckpt <- gets _last_run ;;
        match ckpt with
        | None => raise ValueError
        | Some (lp, ll, lr) =>
            ret (lp,
                 match lnprob0 with None => Some ll | Some _ => lnprob0 end,
                 match rstate0 with None => Some lr | Some _ => rstate0 end)
        end
    | Some p => ret (p, lnprob0, rstate0)
    end ;;
  ys <- sample p0 lnprob0 rstate0 thin store_chain N ;;
  (* [results] is bound by the loop only if something was yielded *)
  res <- match last_bound ys with
         | None => raise UnboundLocalError
         | Some r => ret r
         end ;;
  modify (set_last_run (Some res)) ;;;
  ret res.

(** ** The states a sampler object goes through

    A constructed sampler, and what the methods leave behind: whether they
    return or raise, and at every suspension point of the generator (the
    loop body is allowed any locals here). *)
Inductive reachable : Sampler -> Prop :=
| reach_init cov0 dim0 f a k r0 s :
    MetropolisSampler_init cov0 dim0 f a k r0 = (s, Ok tt) ->
    reachable s
| reach_reset s : reachable s -> reachable (fst (reset s))
| reach_set_random_state s state :
    reachable s -> reachable (fst (set_random_state state s))
| reach_sample_prologue s p lnprob rstate thin store_chain iters :
    reachable s ->
    reachable (fst (sample_prologue p lnprob rstate thin store_chain iters s))
| reach_sample_body s thin store_chain i0 i p lnprob :
    reachable s ->
    reachable (fst (sample_body thin store_chain i0 i p lnprob s))
| reach_run s p0 N lnprob0 rstate0 thin store_chain :
    reachable s ->
    reachable (fst (run p0 N lnprob0 rstate0 thin store_chain s)).

End MontePython.

Notation "x <- m ;; k" := (bind m (fun x => k))
  (at level 61, m at next level, right associativity).
Notation "m ;;; k" := (bind m (fun _ => k))
  (at level 61, right associativity).

(** ** Notions used in the statements *)

Unset Implicit Arguments.

Section Notions.

Context {numpy : Numpy}.

(** numpy's contract for snapshots: [set_state] of what [get_state]
    returned restores the generator it was taken from. *)
Definition snapshot_law : Prop :=
  forall r r' : RandomState, rs_set_state (rs_get_state r) r' = (r, None).

(** What a step reads: the problem definition and the generator. *)
Definition step_view (s : Sampler) :=
  (dim s, lnprobfn s, args s, kwargs s, cov s, _random s).

(** What a step writes: the generator, one more iteration, and one more
    acceptance when [acc]. *)
Definition stepped (r : RandomState) (acc : bool) (s : Sampler) : Sampler :=
  mkSampler (dim s) (lnprobfn s) (args s) (kwargs s) (cov s) r
            (_chain s) (_lnprob s) (iterations s + 1)
            (if acc then accepted s + 1 else accepted s) (_last_run s).

(** The log-density difference the step at [(p, lnprob)] will see. *)
Definition step_delta (p : position) (lnprob : float) (s : Sampler) : float :=
  (lnprobfn s (fst (proposal p s)) (args s) (kwargs s) - lnprob)%float.

(** The uniform variate the generator gives right after the proposal. *)
Definition step_uniform (p : position) (s : Sampler) : float :=
  fst (rs_rand (snd (proposal p s))).

(** The candidate and its log-density. *)
Definition candidate (p : position) (s : Sampler) : position * float :=
  (fst (proposal p s),
   lnprobfn s (fst (proposal p s)) (args s) (kwargs s)).

(** A method keeps the relation [R] between the state it starts from and
    the state it leaves, whether it returns or raises. *)
Definition keeps (R : Sampler -> Sampler -> Prop) {A} (m : M A) : Prop :=
  forall s, R s (fst (m s)).

(** The chain and the log-probabilities have one entry per stored step. *)
Definition parity (s : Sampler) : Prop :=
  length (_chain s) = length (_lnprob s).

(** The problem definition is the same, and parity is not lost. *)
Definition kept (s s' : Sampler) : Prop :=
  dim s' = dim s /\ lnprobfn s' = lnprobfn s /\ args s' = args s /\
  kwargs s' = kwargs s /\ cov s' = cov s /\
  (parity s -> parity s').

(** The buffers keep their length. *)
Definition same_len (s s' : Sampler) : Prop :=
  length (_chain s') = length (_chain s) /\
  length (_lnprob s') = length (_lnprob s).

(** Two samplers with the same problem, generator, buffers and iteration
    counter; the acceptance counter and the checkpoint may differ. *)
Definition agree (s1 s2 : Sampler) : Prop :=
  step_view s1 = step_view s2 /\ _chain s1 = _chain s2 /\
  _lnprob s1 = _lnprob s2 /\ iterations s1 = iterations s2.

(** Two outcomes from agreeing states: the same result, states that still
    agree, as many acceptances counted, checkpoints untouched. *)
Definition sim {A} (s1 s2 : Sampler) (x1 x2 : Sampler * result A) : Prop :=
  snd x1 = snd x2 /\ agree (fst x1) (fst x2) /\
  accepted (fst x1) - accepted s1 = accepted (fst x2) - accepted s2 /\
  _last_run (fst x1) = _last_run s1 /\ _last_run (fst x2) = _last_run s2.

(** The same problem, buffers and iteration counter: everything but the
    generator, the acceptance counter and the checkpoint. *)
Definition same_start (s1 s2 : Sampler) : Prop :=
  dim s1 = dim s2 /\ lnprobfn s1 = lnprobfn s2 /\ args s1 = args s2 /\
  kwargs s1 = kwargs s2 /\ cov s1 = cov s2 /\
  _chain s1 = _chain s2 /\ _lnprob s1 = _lnprob s2 /\
  iterations s1 = iterations s2.

(** The buffers with the rows [c] and the entries [l] appended. *)
Definition ext (c : list (list float)) (l : list float) (s : Sampler)
  : Sampler :=
  set_lnprob (_lnprob s ++ l) (set_chain (_chain s ++ c) s).

(** The locals after a loop that yielded [ys] from the locals [(p, l)]. *)
Definition locals_after (p : position) (l : float) (ys : list results)
  : position * float :=
  match last_bound ys with
  | Some (p', l', _) => (p', l')
  | None => (p, l)
  end.

(** The yields of the steps that are stored: those whose index is a
    multiple of [thin]. *)
Definition stored {A} (thin : Z) (idx : list Z) (ys : list A) : list A :=
  map snd (filter (fun iy => fst iy mod thin =? 0) (combine idx ys)).

End Notions.

Set Implicit Arguments.

(** ** The rest of the sampler's interface *)

(** The float of a Python int, rounded to nearest even. *)
Definition float_of_int (n : Z) : float :=
  SF2Prim (binary_normalize prec emax n 0 false).

Section Accessors.

Context {numpy : Numpy}.

(** *** [acceptance_fraction]: [self.accepted / self.iterations], a true
    division of two ints (the quotient of their floats, for counts below
    2^53). *)
Definition acceptance_fraction : M float :=
  acc <- gets accepted ;;
  its <- gets iterations ;;
  if its =? 0 then raise ZeroDivisionError
  else ret (float_of_int acc / float_of_int its)%float.

(** *** [chain] and [lnprobability] *)
Definition chain : M (list (list float)) := gets _chain.
Definition lnprobability : M (list float) := gets _lnprob.

(** Between two states: no acceptance is lost, and there are no more new
    acceptances than new iterations. *)
Definition counted (s s' : Sampler) : Prop :=
  accepted s <= accepted s' /\
  accepted s' - accepted s <= iterations s' - iterations s.

(** A yielded triple carries the log-density of its position. *)
Definition lnprob_of_position (s : Sampler) (y : results) : Prop :=
  snd (fst y) = lnprobfn s (fst (fst y)) (args s) (kwargs s).

End Accessors.

(** ** [utilities.ball]

    [np.random.normal(size=n)] draws from numpy's global generator, of
    state [G]: [n] standard normal variates and the advanced state. *)
Section Utilities.

Variable G : Type.
Variable np_random_normal : G -> nat -> list float * G.

(** [p0 + sigma * x] for an array [x] as long as [p0]. *)
Definition perturb (p0 : position) (sigma : float) (x : list float)
  : position :=
  map (fun px => (fst px + sigma * snd px)%float) (combine p0 x).

(** The list comprehension over [range(size)]. *)
Fixpoint ball_loop (idx : list Z) (p0 : position) (sigma : float) (g : G)
  : list position * G :=
  match idx with
  | [] => ([], g)
  | _ :: idx' =>
      let (x, g1) := np_random_normal g (length p0) in
      let (rest, g2) := ball_loop idx' p0 sigma g1 in
      (perturb p0 sigma x :: rest, g2)
  end.

Definition ball (p0 : position) (sigma : float) (size : Z) (g : G)
  : list position * G :=
  ball_loop (range size) p0 sigma g.

End Utilities.

(** ** A small numpy to run the sampler on

    A linear congruential generator over [nat]; a snapshot is the state as
    an integer, and a negative integer is a malformed snapshot. *)
Module Toy.

Definition next (r : nat) : nat := (r * 5 + 3) mod 16.

Definition float_of_nat (n : nat) : float :=
  PrimFloat.of_uint63 (Uint63.of_Z (Z.of_nat n)).

(** a symmetric perturbation in {-1.5, -1, ..., 1.5} *)
Definition noise (r : nat) : float :=
  ((float_of_nat (r mod 7) - 3) / 2)%float.

Definition scale_of (c : covariance) : float :=
  match c with CovFloat v => v | CovList _ => 1%float end.

Definition normal (r : nat) (p : position) (c : covariance)
  : position * nat :=
  (map (fun x => (x + scale_of c * noise r)%float) p, next r).

(** a uniform variate in {0, 1/8, ..., 7/8} *)
Definition rand (r : nat) : float * nat :=
  ((float_of_nat (r mod 8) / 8)%float, next r).

(** 1 / (1 - x + x^2/2), in (0, 1] for x <= 0 *)
Definition exp (x : float) : float :=
  (1 / (1 - x + x * x / 2))%float.

Definition get_state (r : nat) : Z := Z.of_nat r.

Definition set_state (o : Z) (r : nat) : nat * option exn :=
  if 0 <=? o then (Z.to_nat o, None) else (r, Some ValueError).

Definition numpy : Numpy :=
  {| RandomState := nat;
     pyobj := Z;
     np_exp := exp;
     rs_normal := normal;
     rs_multivariate_normal := normal;
     rs_rand := rand;
     rs_get_state := get_state;
     rs_set_state := set_state |}.

(** The standard normal log-density up to a constant, [-x^2/2], summed
    over the coordinates. *)
Definition lnprob_gauss (p : position) (_ : list Z) (_ : list (nat * Z))
  : float :=
  fold_right (fun x acc => (acc - x * x / 2)%float) 0%float p.

(** A flat log-density. *)
Definition lnprob_flat (p : position) (_ : list Z) (_ : list (nat * Z))
  : float := 0%float.

(** [MetropolisSampler(1.0, 1, lnprob_gauss)], generator state [r]. *)
Definition sampler0 (r : nat) : Sampler (numpy := numpy) :=
  fst (MetropolisSampler_init (numpy := numpy)
         (CovFloat 1%float) 1 lnprob_gauss [] [] r).

Definition flat0 (r : nat) : Sampler (numpy := numpy) :=
  fst (MetropolisSampler_init (numpy := numpy)
         (CovFloat 1%float) 1 lnprob_flat [] [] r).

End Toy.

(** ** The generator state of numpy's [RandomState]

    What [get_state()] and [set_state(state)] read and write in numpy
    (1.17 and later, [numpy/random/mtrand.pyx] and [_mt19937.pyx]): the 624
    key words and the position of the Mersenne Twister, and the cached
    Gaussian of the legacy normal draw. [get_state()] returns the tuple
    [('MT19937', key, pos, has_gauss, cached_gaussian)]. [set_state] of such
    a tuple checks the name, writes [gauss], writes [has_gauss], copies
    [key[i]] for [i] in [range(624)] one word at a time, and writes [pos]
    last. [key[i]] raises [IndexError] when the key has fewer than 624
    words, after the writes that came before it.

    The draws are not those of the Mersenne Twister: they are the small
    generator's, run on [pos]. The setter does not call them. *)
Module Mt19937.

Import String.

(** The generator's fields. *)
Record rk_state := mk_rk_state {
  key : list Z;
  pos : Z;
  has_gauss : Z;
  gauss : float
}.

(** A 5-tuple [(name, key, pos, has_gauss, cached_gaussian)]. *)
Record legacy_state := mk_legacy_state {
  st_name : string;
  st_key : list Z;
  st_pos : Z;
  st_has_gauss : Z;
  st_gauss : float
}.

Definition get_state (g : rk_state) : legacy_state :=
  mk_legacy_state "MT19937"%string (key g) (pos g) (has_gauss g) (gauss g).

(** [for i in range(624): self.rng_state.key[i] = key[i]] *)
Fixpoint copy_key (idx : list nat) (src dst : list Z)
  : list Z * option exn :=
  match idx with
  | [] => (dst, None)
  | i :: idx' =>
      match nth_error src i with
      | Some w => copy_key idx' src (list_set i w dst)
      | None => (dst, Some IndexError)
      end
  end.

Definition set_state (st : legacy_state) (g : rk_state)
  : rk_state * option exn :=
  if negb (String.eqb (st_name st) "MT19937"%string) then (g, Some ValueError)
  else
    let g1 := mk_rk_state (key g) (pos g) (has_gauss g) (st_gauss st) in
    let g2 := mk_rk_state (key g1) (pos g1) (st_has_gauss st) (gauss g1) in
    match copy_key (seq 0 624) (st_key st) (key g2) with
    | (k, Some e) => (mk_rk_state k (pos g2) (has_gauss g2) (gauss g2), Some e)
    | (k, None) =>
        (mk_rk_state k (st_pos st) (has_gauss g2) (gauss g2), None)
    end.

Definition advance (g : rk_state) (n : nat) : rk_state :=
  mk_rk_state (key g) (Z.of_nat n) (has_gauss g) (gauss g).

Definition normal (g : rk_state) (p : position) (c : covariance)
  : position * rk_state :=
  let (q, n) := Toy.normal (Z.to_nat (pos g)) p c in (q, advance g n).

Definition rand (g : rk_state) : float * rk_state :=
  let (u, n) := Toy.rand (Z.to_nat (pos g)) in (u, advance g n).

Definition numpy : Numpy :=
  {| RandomState := rk_state;
     pyobj := legacy_state;
     np_exp := Toy.exp;
     rs_normal := normal;
     rs_multivariate_normal := normal;
     rs_rand := rand;
     rs_get_state := get_state;
     rs_set_state := set_state |}.

(** A generator with nothing cached. *)
Definition g0 : rk_state := mk_rk_state (repeat 0 624) 624 0 0%float.

(** A state tuple with a key of three words and a cached Gaussian. *)
Definition short_key : legacy_state :=
  mk_legacy_state "MT19937"%string [1; 2; 3] 0 1 0.5%float.

Definition lnprob_gauss (p : position) (_ : list legacy_state)
    (_ : list (nat * legacy_state)) : float :=
  fold_right (fun x acc => (acc - x * x / 2)%float) 0%float p.

(** [MetropolisSampler(1.0, 1, lnprob_gauss)] on the generator [g0]. *)
Definition sampler0 : Sampler (numpy := numpy) :=
  fst (MetropolisSampler_init (numpy := numpy)
         (CovFloat 1%float) 1 lnprob_gauss [] [] g0).

End Mt19937.

(** A global generator for [utilities.ball]: [n] draws from the same
    sequence of perturbations. *)
Module ToyGlobal.

Definition normal (g : nat) (n : nat) : list float * nat :=
  (map (fun i => Toy.noise (g + i)) (seq 0 n), Toy.next g).

End ToyGlobal.

(** The sampler after [run([0.0], 2, store_chain=False)]: two iterations
    counted, no row stored. *)
Definition toy_unstored : Sampler (numpy := Toy.numpy) :=
  fst (run (numpy := Toy.numpy) (Some [0%float]) 2 None None 1 false
           (Toy.sampler0 1)).

(** * Properties *)

Unset Implicit Arguments.

(** ** Comparisons of floats with zero *)

Lemma ltb_0_pos_not_neg (x : float) :
  (0 <? x)%float = true -> (x <? 0)%float = false.
Proof.
  rewrite !ltb_spec. unfold SFltb.
  destruct (Prim2SF x) as [s|s| |s m e]; cbn;
    try destruct s; try reflexivity; discriminate.
Qed.

Lemma eqb_0_not_ltb (x : float) :
  (x =? 0)%float = true ->
  (x <? 0)%float = false /\ (0 <? x)%float = false.
Proof.
  rewrite eqb_spec, !ltb_spec. unfold SFeqb, SFltb.
  destruct (Prim2SF x) as [s|s| |s m e]; cbn;
    try destruct s; try discriminate; auto.
Qed.

(** ** The sign of a binary64 difference *)

Lemma digits2_pos_bounds m :
  2 ^ (Zpos (digits2_pos m) - 1) <= Zpos m < 2 ^ Zpos (digits2_pos m).
Proof.
  induction m as [m IH|m IH|]; cbn [digits2_pos].
  - rewrite Pos2Z.inj_succ, Pos2Z.inj_xI, Z.pow_succ_r by lia.
    replace (Z.succ (Zpos (digits2_pos m)) - 1)
      with (Z.succ (Zpos (digits2_pos m) - 1)) by lia.
    rewrite Z.pow_succ_r by lia.
    generalize dependent (2 ^ (Zpos (digits2_pos m) - 1)).
    generalize (2 ^ Zpos (digits2_pos m)). intros; lia.
  - rewrite Pos2Z.inj_succ, (Pos2Z.inj_xO m), Z.pow_succ_r by lia.
    replace (Z.succ (Zpos (digits2_pos m)) - 1)
      with (Z.succ (Zpos (digits2_pos m) - 1)) by lia.
    rewrite Z.pow_succ_r by lia.
    generalize dependent (2 ^ (Zpos (digits2_pos m) - 1)).
    generalize (2 ^ Zpos (digits2_pos m)). intros; lia.
  - cbn. lia.
Qed.

Lemma shr_1_digits mrs :
  0 <= shr_m mrs ->
  0 <= shr_m (shr_1 mrs) /\
  Zdigits2 (shr_m (shr_1 mrs)) = Z.max 0 (Zdigits2 (shr_m mrs) - 1).
Proof.
  destruct mrs as [m r s]; cbn [shr_m].
  destruct m as [|[p|p|]|p]; cbn [shr_1 shr_m Zdigits2 digits2_pos]; intros H;
    try lia; rewrite ?Pos2Z.inj_succ; lia.
Qed.

Lemma iter_shr_1_digits p :
  forall mrs,
    0 <= shr_m mrs ->
    0 <= shr_m (iter_pos shr_1 p mrs) /\
    Zdigits2 (shr_m (iter_pos shr_1 p mrs))
    = Z.max 0 (Zdigits2 (shr_m mrs) - Zpos p).
Proof.
  induction p as [p IH|p IH|]; intros mrs H; cbn [iter_pos].
  - destruct (shr_1_digits mrs H) as [H1 E1].
    destruct (IH _ H1) as [H2 E2]. destruct (IH _ H2) as [H3 E3].
    split; [exact H3|]. rewrite E3, E2, E1, Pos2Z.inj_xI. lia.
  - destruct (IH _ H) as [H2 E2]. destruct (IH _ H2) as [H3 E3].
    split; [exact H3|]. rewrite E3, E2, Pos2Z.inj_xO. lia.
  - apply shr_1_digits, H.
Qed.

Lemma Zdigits2_pos m : 0 <= m -> 0 < Zdigits2 m -> 0 < m.
Proof. destruct m; cbn; lia. Qed.

Lemma shr_record_of_loc_m m l : shr_m (shr_record_of_loc m l) = m.
Proof. destruct l as [|[]]; reflexivity. Qed.

Lemma shr_fexp_pos m e l :
  0 < m -> emin <= e ->
  0 < shr_m (fst (shr_fexp prec emax m e l)) /\
  emin <= snd (shr_fexp prec emax m e l).
Proof.
  intros Hm He. unfold shr_fexp, shr.
  destruct (fexp prec emax (Zdigits2 m + e) - e) as [|p|p] eqn:En;
    cbn [fst snd]; rewrite ?shr_record_of_loc_m; try (split; assumption).
  assert (Hd : Zpos p = Zdigits2 m - prec).
  { revert En He. unfold fexp, SpecFloat.emin, prec, emax. lia. }
  destruct (iter_shr_1_digits p (shr_record_of_loc m l)) as [H0 E].
  { rewrite shr_record_of_loc_m. lia. }
  rewrite shr_record_of_loc_m in E. split; [|lia].
  apply Zdigits2_pos; [exact H0|]. rewrite E. unfold prec in Hd. lia.
Qed.

Lemma round_nearest_even_pos m l : 0 < m -> 0 < round_nearest_even m l.
Proof.
  intros H. unfold round_nearest_even.
  destruct l as [|[]]; try destruct (Z.even m); lia.
Qed.

Lemma binary_round_aux_sign sx m e l :
  0 < m -> emin <= e ->
  SFltb (S754_zero false) (binary_round_aux prec emax sx m e l) = negb sx.
Proof.
  intros Hm He. unfold binary_round_aux.
  destruct (shr_fexp_pos m e l Hm He) as [H1 H2].
  destruct (shr_fexp prec emax m e l) as [mrs' e']. cbn [fst snd] in H1, H2.
  destruct (shr_fexp_pos _ e' loc_Exact
              (round_nearest_even_pos _ (loc_of_shr_record mrs') H1) H2)
    as [H3 _].
  destruct (shr_fexp prec emax _ e' loc_Exact) as [mrs'' e''].
  cbn [fst] in H3.
  destruct (shr_m mrs''); try lia.
  destruct (e'' <=? emax - prec); destruct sx; reflexivity.
Qed.

Lemma shl_align_exp m e e' :
  emin <= e -> emin <= e' ->
  emin <= snd (shl_align m e e').
Proof.
  intros H H'. unfold shl_align. destruct (e' - e); cbn; assumption.
Qed.

Lemma binary_normalize_sign M e :
  emin <= e ->
  SFltb (S754_zero false) (binary_normalize prec emax M e false) = (0 <? M).
Proof.
  intros He. destruct M as [|m|m]; cbn [binary_normalize]; try reflexivity.
  - unfold binary_round.
    pose proof (shl_align_exp m e (fexp prec emax (Zpos (digits2_pos m) + e))
                  He ltac:(unfold fexp; lia)) as Hz.
    destruct (shl_align m e _) as [mz ez]. cbn [snd] in Hz.
    apply binary_round_aux_sign; [lia|exact Hz].
  - unfold binary_round.
    pose proof (shl_align_exp m e (fexp prec emax (Zpos (digits2_pos m) + e))
                  He ltac:(unfold fexp; lia)) as Hz.
    destruct (shl_align m e _) as [mz ez]. cbn [snd] in Hz.
    apply binary_round_aux_sign; [lia|exact Hz].
Qed.

Lemma pos_iter_xO d : forall m, Zpos (Pos.iter xO m d) = Zpos m * 2 ^ Zpos d.
Proof.
  induction d as [|d IH] using Pos.peano_ind; intros m.
  - cbn [Pos.iter]. rewrite (Pos2Z.inj_xO m). change (2 ^ 1) with 2. lia.
  - rewrite Pos.iter_succ, (Pos2Z.inj_xO (Pos.iter xO m d)), IH.
    rewrite Pos2Z.inj_succ, Z.pow_succ_r by lia. ring.
Qed.

Lemma shl_align_m m e ez :
  ez <= e -> Zpos (fst (shl_align m e ez)) = Zpos m * 2 ^ (e - ez).
Proof.
  intros H. unfold shl_align. destruct (ez - e) as [|p|p] eqn:E; cbn [fst].
  - replace (e - ez) with 0 by lia. rewrite Z.pow_0_r. lia.
  - lia.
  - replace (e - ez) with (Zpos p) by lia. apply pos_iter_xO.
Qed.

Lemma valid_finite s m e :
  valid_binary (S754_finite s m e) = true ->
  emin <= e /\ Zpos m < 2 ^ 53 /\ (emin < e -> 2 ^ 52 <= Zpos m).
Proof.
  unfold valid_binary, bounded, canonical_mantissa. intros H.
  apply andb_true_iff in H. destruct H as [H _]. apply Z.eqb_eq in H.
  pose proof (digits2_pos_bounds m) as [Hlo Hhi].
  revert H. unfold fexp, SpecFloat.emin, prec, emax. intros H.
  assert (Hd : Zpos (digits2_pos m) <= 53) by lia.
  split; [lia|]. split.
  - eapply Z.lt_le_trans; [exact Hhi|]. apply Z.pow_le_mono_r; lia.
  - intros He. assert (Zpos (digits2_pos m) = 53) as E by lia.
    rewrite E in Hlo. exact Hlo.
Qed.

Lemma aligned_lt s1 m1 e1 s2 m2 e2 :
  valid_binary (S754_finite s1 m1 e1) = true ->
  valid_binary (S754_finite s2 m2 e2) = true ->
  e1 < e2 ->
  Zpos m1 * 2 ^ (e1 - e1) < Zpos m2 * 2 ^ (e2 - e1).
Proof.
  intros H1 H2 He.
  destruct (valid_finite _ _ _ H1) as (Hmin & Hhi & _).
  destruct (valid_finite _ _ _ H2) as (_ & _ & Hlo).
  specialize (Hlo ltac:(lia)).
  rewrite Z.sub_diag, Z.pow_0_r, Z.mul_1_r.
  assert (Hp : 2 ^ 1 <= 2 ^ (e2 - e1)) by (apply Z.pow_le_mono_r; lia).
  change (2 ^ 1) with 2 in Hp.
  change (2 ^ 53) with (2 ^ 52 * 2) in Hhi.
  generalize dependent (2 ^ (e2 - e1)). generalize dependent (2 ^ 52).
  intros; nia.
Qed.

Lemma SFsub_sign x y :
  valid_binary x = true -> valid_binary y = true ->
  SFltb (S754_zero false) (SF64sub x y) = SFltb y x.
Proof.
  intros Hx Hy.
  destruct x as [sx|sx| |sx mx ex], y as [sy|sy| |sy my ey];
    try (cbn; try destruct sx; try destruct sy; reflexivity).
  unfold SF64sub, SFsub.
  destruct (valid_finite _ _ _ Hx) as (Hex & _).
  destruct (valid_finite _ _ _ Hy) as (Hey & _).
  rewrite binary_normalize_sign by lia.
  rewrite !shl_align_m by lia.
  unfold SFltb, SFcompare.
  destruct (Z.compare_spec ey ex) as [E|E|E].
  - subst ey. rewrite Z.min_id, Z.sub_diag, Z.pow_0_r, !Z.mul_1_r.
    change (Pos.compare_cont Eq my mx) with (my ?= mx)%positive.
    destruct sx, sy; cbn [cond_Zopp];
      destruct (Pos.compare_spec my mx); cbn [CompOpp];
      destruct (Z.ltb_spec 0 (- Zpos mx - - Zpos my));
      destruct (Z.ltb_spec 0 (- Zpos mx - Zpos my));
      destruct (Z.ltb_spec 0 (Zpos mx - - Zpos my));
      destruct (Z.ltb_spec 0 (Zpos mx - Zpos my)); try reflexivity; lia.
  - pose proof (aligned_lt _ _ _ _ _ _ Hy Hx E) as Hlt.
    rewrite Z.min_r by lia.
    destruct sx, sy; cbn [cond_Zopp];
      match goal with |- (0 <? ?M) = _ => destruct (Z.ltb_spec 0 M) end;
      try reflexivity; lia.
  - pose proof (aligned_lt _ _ _ _ _ _ Hx Hy E) as Hlt.
    rewrite Z.min_l by lia.
    destruct sx, sy; cbn [cond_Zopp];
      match goal with |- (0 <? ?M) = _ => destruct (Z.ltb_spec 0 M) end;
      try reflexivity; lia.
Qed.

(** [x - y > 0] exactly when [x > y], for all binary64 numbers, infinities
    and NaN included: a nonzero difference of two finite numbers never rounds
    to zero. *)
Lemma sub_pos_iff_lt (x y : float) : (0 <? x - y)%float = (y <? x)%float.
Proof.
  rewrite !ltb_spec, sub_spec.
  apply SFsub_sign; apply Prim2SF_valid.
Qed.

Section Properties.

Context {numpy : Numpy}.

Ltac unfold_M :=
  unfold bind, ret, raise, gets, modify, lift, try_except_pass in *.

(** ** The [random_state] setter *)

Lemma set_random_same (s : Sampler) : set_random (_random s) s = s.
Proof. destruct s; reflexivity. Qed.

Lemma set_random_state_Ok state s : snd (set_random_state state s) = Ok tt.
Proof. reflexivity. Qed.

Lemma set_random_state_Some o s :
  set_random_state (Some o) s
  = (set_random (fst (rs_set_state o (_random s))) s, Ok tt).
Proof.
  unfold set_random_state, try_except_pass, RandomState_set_state.
  destruct (rs_set_state o (_random s)) as [r [e|]]; reflexivity.
Qed.

Lemma set_random_state_accepted o s r :
  rs_set_state o (_random s) = (r, None) ->
  set_random_state (Some o) s = (set_random r s, Ok tt).
Proof. intros H. rewrite set_random_state_Some, H. reflexivity. Qed.

(** C7, as the code has it. The [random_state] setter never raises, and
    only ever changes the generator. For [None] the sampler is left exactly
    as it was. For any other object the generator is the one numpy's
    [set_state] leaves, whether [set_state] returned or raised: it is the
    generator from before the call when the failing [set_state] had not
    written to it, and not otherwise. For a snapshot taken with the getter
    from a generator [r] the generator becomes [r] itself. *)
Theorem random_state_setter_swallows (Hsnap : snapshot_law) :
  (forall state s, snd (set_random_state state s) = Ok tt) /\
  (forall state s,
      exists r, set_random_state state s = (set_random r s, Ok tt)) /\
  (forall s, set_random_state None s = (s, Ok tt)) /\
  (forall o s,
      set_random_state (Some o) s
      = (set_random (fst (rs_set_state o (_random s))) s, Ok tt)) /\
  (forall o s e,
      rs_set_state o (_random s) = (_random s, Some e) ->
      set_random_state (Some o) s = (s, Ok tt)) /\
  (forall s r,
      set_random_state (Some (rs_get_state r)) s = (set_random r s, Ok tt)) /\
  (forall s s' snap,
      random_state s = (s', Ok snap) ->
      forall s2, _random (fst (set_random_state (Some snap) s2)) = _random s).
Proof.
  split; [reflexivity|].
  split.
  { intros [o|] s.
    - eexists. apply set_random_state_Some.
    - exists (_random s). rewrite set_random_same. reflexivity. }
  split; [reflexivity|].
  split; [apply set_random_state_Some|].
  split.
  { intros o s e H. rewrite set_random_state_Some, H. cbn.
    rewrite set_random_same. reflexivity. }
  split.
  - intros s r. apply set_random_state_accepted, Hsnap.
  - intros s s' snap H s2. unfold random_state, gets in H.
    inversion H; subst. rewrite (set_random_state_accepted _ _ _ (Hsnap _ _)).
    destruct s2; reflexivity.
Qed.

(** ** One Metropolis step *)

Lemma metropolis_step_view p lnprob s1 s2 :
  step_view s1 = step_view s2 ->
  exists r acc pl,
    metropolis_step p lnprob s1 = (stepped r acc s1, Ok pl) /\
    metropolis_step p lnprob s2 = (stepped r acc s2, Ok pl).
Proof.
  destruct s1, s2; unfold step_view; cbn; intros H; inversion H; subst.
  unfold metropolis_step, accept_test, get_lnprob, proposal, stepped.
  unfold_M; cbn.
  match goal with
  | |- context [if ?b then rs_normal ?r ?p ?c else ?e] =>
      destruct (if b then rs_normal r p c else e) as [q r1]
  end; cbn.
  match goal with
  | |- context [(?d <? 0)%float] => destruct (d <? 0)%float eqn:Hneg
  end; cbn.
  - destruct (rs_rand r1) as [u r2]; cbn.
    match goal with
    | |- context [(0 <? ?d)%float] => destruct (0 <? d)%float
    end; cbn.
    + exists r2, true; eexists; split; reflexivity.
    + exists r2, false; eexists; split; reflexivity.
  - match goal with
    | |- context [(0 <? ?d)%float] => destruct (0 <? d)%float
    end; cbn.
    + exists r1, true; eexists; split; reflexivity.
    + exists r1, false; eexists; split; reflexivity.
Qed.

Lemma metropolis_step_stepped p lnprob s :
  exists r acc pl, metropolis_step p lnprob s = (stepped r acc s, Ok pl).
Proof.
  destruct (metropolis_step_view p lnprob s s eq_refl) as (r & acc & pl & H & _).
  eauto.
Qed.

Lemma metropolis_step_eq p lnprob s :
  metropolis_step p lnprob s =
  let (q, r1) := proposal p s in
  let newlnprob := lnprobfn s q (args s) (kwargs s) in
  let delta := (newlnprob - lnprob)%float in
  if (delta <? 0)%float then
    let (u, r2) := rs_rand r1 in
    if (0 <? np_exp delta - u)%float
    then (stepped r2 true s, Ok (q, newlnprob))
    else (stepped r2 false s, Ok (p, lnprob))
  else
    if (0 <? delta)%float
    then (stepped r1 true s, Ok (q, newlnprob))
    else (stepped r1 false s, Ok (p, lnprob)).
Proof.
  destruct s.
  unfold metropolis_step, accept_test, get_lnprob, proposal, stepped.
  unfold_M; cbn.
  match goal with
  | |- context [if ?b then rs_normal ?r ?p ?c else ?e] =>
      destruct (if b then rs_normal r p c else e) as [q r1]
  end; cbn.
  match goal with
  | |- context [(?d <? 0)%float] => destruct (d <? 0)%float
  end; cbn.
  - destruct (rs_rand r1) as [u r2]; cbn.
    match goal with
    | |- context [(0 <? ?d)%float] => destruct (0 <? d)%float
    end; reflexivity.
  - match goal with
    | |- context [(0 <? ?d)%float] => destruct (0 <? d)%float
    end; reflexivity.
Qed.

(** A candidate strictly more probable than the current position is
    accepted, and the generator is only advanced by the proposal. *)
Lemma metropolis_step_uphill p lnprob s :
  (0 <? step_delta p lnprob s)%float = true ->
  metropolis_step p lnprob s =
  (stepped (snd (proposal p s)) true s, Ok (candidate p s)).
Proof.
  unfold step_delta, candidate. rewrite metropolis_step_eq.
  destruct (proposal p s) as [q r1]; cbn. intros H.
  rewrite (ltb_0_pos_not_neg _ H), H. reflexivity.
Qed.

(** C1. A candidate exactly as probable as the current position
    ([delta == 0], so [delta >= 0]) is not accepted: the step keeps the
    current position and log-probability and does not count an
    acceptance, whatever the generator is. *)
Theorem metropolis_step_tie_rejects p lnprob s :
  (step_delta p lnprob s =? 0)%float = true ->
  (0 <=? step_delta p lnprob s)%float = true /\
  metropolis_step p lnprob s =
    (stepped (snd (proposal p s)) false s, Ok (p, lnprob)) /\
  accepted (fst (metropolis_step p lnprob s)) = accepted s.
Proof.
  intros H. split.
  - revert H. rewrite eqb_spec, leb_spec. unfold SFeqb, SFleb.
    destruct (Prim2SF (step_delta p lnprob s)) as [b|b| |b m e]; cbn;
      try destruct b; try discriminate; auto.
  - destruct (eqb_0_not_ltb _ H) as [Hneg Hpos].
    assert (E : metropolis_step p lnprob s =
                (stepped (snd (proposal p s)) false s, Ok (p, lnprob))).
    { revert Hneg Hpos. unfold step_delta. rewrite metropolis_step_eq.
      destruct (proposal p s) as [q r1]; cbn. intros -> ->. reflexivity. }
    split; [exact E|]. rewrite E. reflexivity.
Qed.

(** C5. When [delta < 0] the step draws, after the proposal, exactly one
    uniform variate [u] and accepts iff [exp(delta) > u] (the code tests
    [exp(delta) - u > 0], which is the same for all floats). When
    [delta < 0] does not hold, [delta >= 0] included, the generator is
    advanced by the proposal alone and the step accepts iff [delta > 0]. *)
Theorem metropolis_step_draws p lnprob s :
  ((step_delta p lnprob s <? 0)%float = true ->
   metropolis_step p lnprob s =
     (stepped (snd (rs_rand (snd (proposal p s))))
              (step_uniform p s <? np_exp (step_delta p lnprob s))%float s,
      Ok (if (step_uniform p s <? np_exp (step_delta p lnprob s))%float
          then candidate p s else (p, lnprob)))) /\
  ((step_delta p lnprob s <? 0)%float = false ->
   _random (fst (metropolis_step p lnprob s)) = snd (proposal p s) /\
   metropolis_step p lnprob s =
     (stepped (snd (proposal p s)) (0 <? step_delta p lnprob s)%float s,
      Ok (if (0 <? step_delta p lnprob s)%float
          then candidate p s else (p, lnprob)))).
Proof.
  unfold step_delta, step_uniform, candidate. rewrite metropolis_step_eq.
  destruct (proposal p s) as [q r1]; cbn. split; intros Hd.
  - rewrite Hd. destruct (rs_rand r1) as [u r2]; cbn.
    rewrite sub_pos_iff_lt.
    destruct (u <? _)%float; reflexivity.
  - rewrite Hd.
    destruct (0 <? _)%float; split; reflexivity.
Qed.

(** ** What every method keeps *)

Section Keeps.

Variable R : Sampler -> Sampler -> Prop.
Hypothesis R_refl : forall s, R s s.
Hypothesis R_trans : forall s1 s2 s3, R s1 s2 -> R s2 s3 -> R s1 s3.

Lemma keeps_ret {A} (a : A) : keeps R (ret a).
Proof. intros s. apply R_refl. Qed.

Lemma keeps_raise {A} e : keeps R (@raise _ A e).
Proof. intros s. apply R_refl. Qed.

Lemma keeps_gets {A} (f : Sampler -> A) : keeps R (gets f).
Proof. intros s. apply R_refl. Qed.

Lemma keeps_modify f : (forall s, R s (f s)) -> keeps R (modify f).
Proof. intros H s. apply H. Qed.

Lemma keeps_bind {A B} (m : M A) (k : A -> M B) :
  keeps R m -> (forall a, keeps R (k a)) -> keeps R (bind m k).
Proof.
  intros Hm Hk s. unfold bind. specialize (Hm s).
  destruct (m s) as [s' [a|e]]; cbn in *; [|exact Hm].
  eapply R_trans; [exact Hm | apply Hk].
Qed.

End Keeps.

Lemma kept_refl s : kept s s.
Proof. unfold kept; tauto. Qed.

Lemma kept_trans s1 s2 s3 : kept s1 s2 -> kept s2 s3 -> kept s1 s3.
Proof. unfold kept; intuition congruence. Qed.

Lemma list_set_length {A} n (v : A) l : length (list_set n v l) = length l.
Proof.
  revert n; induction l as [|h t IH]; intros [|n]; cbn; auto.
Qed.

Lemma np_setitem_length {A} (a a' : list A) ind v :
  np_setitem a ind v = Ok a' -> length a' = length a.
Proof.
  unfold np_setitem. destruct (np_index _ ind); intros H; inversion H.
  apply list_set_length.
Qed.

Lemma np_zeros_length N : length (np_zeros N) = Z.to_nat N.
Proof. apply repeat_length. Qed.

Lemma np_zeros2_length N d : length (np_zeros2 N d) = Z.to_nat N.
Proof. apply repeat_length. Qed.

Lemma reset_kept : keeps kept reset.
Proof.
  intros s. unfold reset; unfold_M.
  destruct (dim s <? 0); cbn; unfold kept, parity; cbn; tauto.
Qed.

Lemma set_random_state_kept state : keeps kept (set_random_state state).
Proof.
  intros s. unfold set_random_state, RandomState_set_state; unfold_M.
  destruct state as [o|]; [destruct (rs_set_state o (_random s)) as [? [?|]]|];
    cbn; unfold kept, parity; cbn; tauto.
Qed.

Lemma sample_prologue_kept p lnprob rstate thin store_chain iters :
  keeps kept (sample_prologue p lnprob rstate thin store_chain iters).
Proof.
  unfold sample_prologue.
  apply (keeps_bind kept kept_trans); [apply set_random_state_kept|intros _].
  apply (keeps_bind kept kept_trans).
  { destruct lnprob; [apply keeps_ret | apply keeps_gets]; apply kept_refl. }
  intros l s. unfold_M.
  destruct store_chain; [|cbn; apply kept_refl].
  destruct (thin =? 0); cbn; [apply kept_refl|].
  destruct ((iters ÷ thin <? 0) || (dim s <? 0)); cbn; [apply kept_refl|].
  unfold kept, parity; cbn. rewrite !length_app, np_zeros_length,
    np_zeros2_length. intuition congruence.
Qed.

Lemma metropolis_step_kept p lnprob : keeps kept (metropolis_step p lnprob).
Proof.
  intros s. destruct (metropolis_step_stepped p lnprob s) as (r & acc & pl & ->).
  unfold kept, parity; cbn; tauto.
Qed.

Lemma store_kept thin store_chain i0 i p lnprob :
  keeps kept (store thin store_chain i0 i p lnprob).
Proof.
  intros s. unfold store; unfold_M.
  destruct store_chain; [|cbn; apply kept_refl].
  destruct (thin =? 0); cbn; [apply kept_refl|].
  destruct (i mod thin =? 0); cbn; [|apply kept_refl].
  destruct (np_setitem (_chain s) _ p) as [c|e] eqn:Ec; cbn;
    [|apply kept_refl].
  apply np_setitem_length in Ec.
  destruct (np_setitem (_lnprob s) _ lnprob) as [l|e] eqn:El; cbn.
  - apply np_setitem_length in El.
    unfold kept, parity; cbn. intuition congruence.
  - unfold kept, parity; cbn. intuition congruence.
Qed.

Lemma sample_body_kept thin store_chain i0 i p lnprob :
  keeps kept (sample_body thin store_chain i0 i p lnprob).
Proof.
  unfold sample_body.
  apply (keeps_bind kept kept_trans); [apply metropolis_step_kept|].
  intros [p' l'].
  apply (keeps_bind kept kept_trans); [apply store_kept|intros _].
  apply (keeps_bind kept kept_trans); [apply keeps_gets, kept_refl|intros r].
  apply keeps_ret, kept_refl.
Qed.

Lemma sample_loop_kept thin store_chain i0 idx :
  forall p lnprob, keeps kept (sample_loop thin store_chain i0 idx p lnprob).
Proof.
  induction idx as [|i idx IH]; intros p lnprob; cbn.
  - apply keeps_ret, kept_refl.
  - apply (keeps_bind kept kept_trans); [apply sample_body_kept|].
    intros [[p' l'] y].
    apply (keeps_bind kept kept_trans); [apply IH|intros ys].
    apply keeps_ret, kept_refl.
Qed.

Lemma sample_kept p lnprob rstate thin store_chain iters :
  keeps kept (sample p lnprob rstate thin store_chain iters).
Proof.
  unfold sample.
  apply (keeps_bind kept kept_trans); [apply sample_prologue_kept|].
  intros [l i0]. apply sample_loop_kept.
Qed.

Lemma run_kept p0 N lnprob0 rstate0 thin store_chain :
  keeps kept (run p0 N lnprob0 rstate0 thin store_chain).
Proof.
  unfold run.
  apply (keeps_bind kept kept_trans).
  { destruct p0 as [p|]; [apply keeps_ret, kept_refl|].
    apply (keeps_bind kept kept_trans); [apply keeps_gets, kept_refl|].
    intros [[[lp ll] lr]|]; [apply keeps_ret|apply keeps_raise];
      apply kept_refl. }
  intros [[p l] r].
  apply (keeps_bind kept kept_trans); [apply sample_kept|intros ys].
  apply (keeps_bind kept kept_trans).
  { destruct (last_bound ys); [apply keeps_ret|apply keeps_raise];
      apply kept_refl. }
  intros res.
  apply (keeps_bind kept kept_trans); [|intros _; apply keeps_ret, kept_refl].
  apply keeps_modify. intros s. unfold kept, parity; cbn; tauto.
Qed.

Lemma init_Ok cov0 dim0 f a k r0 s :
  MetropolisSampler_init cov0 dim0 f a k r0 = (s, Ok tt) ->
  0 <= dim0 /\ s = mkSampler dim0 f a k cov0 r0 [] [] 0 0 None.
Proof.
  unfold MetropolisSampler_init, reset; unfold_M; cbn.
  destruct (dim0 <? 0) eqn:E; cbn; intros H; inversion H.
  split; [lia|reflexivity].
Qed.

Lemma reachable_inv s : reachable s -> 0 <= dim s /\ parity s.
Proof.
  assert (K : forall s s', kept s s' -> 0 <= dim s /\ parity s ->
                           0 <= dim s' /\ parity s').
  { unfold kept. intros s1 s2 (Hd & _ & _ & _ & _ & Hp) [H1 H2].
    rewrite Hd. auto. }
  induction 1 as [cov0 dim0 f a k r0 s Hi| | | | | ].
  - apply init_Ok in Hi. destruct Hi as [Hd ->]. split; [exact Hd|reflexivity].
  - eapply K; [apply reset_kept|assumption].
  - eapply K; [apply set_random_state_kept|assumption].
  - eapply K; [apply sample_prologue_kept|assumption].
  - eapply K; [apply sample_body_kept|assumption].
  - eapply K; [apply run_kept|assumption].
Qed.

(** The generator driven to its end, or until it raises, passes through
    reachable states only. *)
Lemma reachable_sample_loop thin store_chain i0 idx :
  forall p lnprob s,
    reachable s ->
    reachable (fst (sample_loop thin store_chain i0 idx p lnprob s)).
Proof.
  induction idx as [|i idx IH]; intros p lnprob s Hs; cbn; [exact Hs|].
  unfold bind.
  pose proof (@reach_sample_body _ s thin store_chain i0 i p lnprob Hs) as H1.
  destruct (sample_body thin store_chain i0 i p lnprob s)
    as [s1 [[[p' l'] y]|e]]; cbn in *; [|exact H1].
  specialize (IH p' l' s1 H1).
  destruct (sample_loop thin store_chain i0 idx p' l' s1) as [s2 [ys|e]];
    exact IH.
Qed.

Lemma reachable_sample p lnprob rstate thin store_chain iters s :
  reachable s ->
  reachable (fst (sample p lnprob rstate thin store_chain iters s)).
Proof.
  intros Hs. unfold sample, bind.
  pose proof (@reach_sample_prologue _ s p lnprob rstate thin store_chain
                iters Hs) as H1.
  destruct (sample_prologue p lnprob rstate thin store_chain iters s)
    as [s1 [[l i0]|e]]; cbn in *; [|exact H1].
  apply reachable_sample_loop, H1.
Qed.

(** C8. In every state a sampler object goes through: after
    construction, after [reset], after the [random_state] setter, at every
    suspension point of [sample] and after [run], for every [thin] and
    [store_chain], whether the call returned or raised, the chain and the
    log-probabilities have the same length. *)
Theorem chain_lnprob_parity s :
  reachable s -> length (_chain s) = length (_lnprob s).
Proof. intros H. apply reachable_inv, H. Qed.

(** C9. In any state a sampler object goes through, [reset] returns and
    leaves the chain and the log-probabilities empty, both counters at
    zero and no checkpoint; the generator and the problem definition are
    the ones it had. *)
Theorem reset_clears s :
  reachable s ->
  exists s',
    reset s = (s', Ok tt) /\
    _chain s' = [] /\ _lnprob s' = [] /\
    iterations s' = 0 /\ accepted s' = 0 /\ _last_run s' = None /\
    _random s' = _random s /\
    dim s' = dim s /\ lnprobfn s' = lnprobfn s /\ args s' = args s /\
    kwargs s' = kwargs s /\ cov s' = cov s.
Proof.
  intros H. apply reachable_inv in H. destruct H as [Hd _].
  unfold reset; unfold_M.
  destruct (dim s <? 0) eqn:E; [lia|]. cbn.
  eexists; split; [reflexivity|]. cbn. repeat split.
Qed.

(** ** [run] and the checkpoint *)

Lemma sample_prologue_last_run p lnprob rstate thin store_chain iters s :
  _last_run (fst (sample_prologue p lnprob rstate thin store_chain iters s))
  = _last_run s.
Proof.
  unfold sample_prologue, set_random_state, RandomState_set_state, get_lnprob.
  unfold_M.
  destruct rstate as [o|]; [destruct (rs_set_state o (_random s)) as [? [?|]]|];
    destruct lnprob; cbn; destruct store_chain; cbn; try reflexivity;
    destruct (thin =? 0); cbn; try reflexivity;
    destruct ((iters ÷ thin <? 0) || (dim s <? 0)); reflexivity.
Qed.

(** The starting point [run] hands to [sample]: lines 125-133. *)
Lemma run_with_position p N lnprob0 rstate0 thin store_chain s :
  run (Some p) N lnprob0 rstate0 thin store_chain s =
  match sample p lnprob0 rstate0 thin store_chain N s with
  | (s', Ok ys) =>
      match last_bound ys with
      | Some res => (set_last_run (Some res) s', Ok res)
      | None => (s', Raise UnboundLocalError)
      end
  | (s', Raise e) => (s', Raise e)
  end.
Proof.
  unfold run; unfold_M.
  destruct (sample p lnprob0 rstate0 thin store_chain N s) as [s' [ys|e]];
    [|reflexivity].
  destruct (last_bound ys); reflexivity.
Qed.

Lemma run_None_no_checkpoint s N lnprob0 rstate0 thin store_chain :
  _last_run s = None ->
  run None N lnprob0 rstate0 thin store_chain s = (s, Raise ValueError).
Proof. intros H. unfold run; unfold_M. rewrite H. reflexivity. Qed.

Lemma run_None_checkpoint s p l r N lnprob0 rstate0 thin store_chain :
  _last_run s = Some (p, l, r) ->
  run None N lnprob0 rstate0 thin store_chain s =
  run (Some p) N
      (Some (match lnprob0 with None => l | Some l0 => l0 end))
      (Some (match rstate0 with None => r | Some r0 => r0 end))
      thin store_chain s.
Proof.
  intros H. unfold run; unfold_M. rewrite H.
  destruct lnprob0, rstate0; reflexivity.
Qed.

(** C6. [run] with [p0 = None] raises [ValueError], touching nothing,
    when there is no checkpoint: on a sampler just constructed or just
    reset in particular. With a checkpoint [(p, l, r)] it is the run from
    [p], with [lnprob0] and [rstate0] taken from the checkpoint where they
    were omitted. *)
Theorem run_position_omitted :
  (forall s N lnprob0 rstate0 thin store_chain,
      _last_run s = None ->
      run None N lnprob0 rstate0 thin store_chain s = (s, Raise ValueError)) /\
  (forall s s', reset s = (s', Ok tt) -> _last_run s' = None) /\
  (forall cov0 dim0 f a k r0 s,
      MetropolisSampler_init cov0 dim0 f a k r0 = (s, Ok tt) ->
      _last_run s = None) /\
  (forall s p l r N lnprob0 rstate0 thin store_chain,
      _last_run s = Some (p, l, r) ->
      run None N lnprob0 rstate0 thin store_chain s =
      run (Some p) N
          (Some (match lnprob0 with None => l | Some l0 => l0 end))
          (Some (match rstate0 with None => r | Some r0 => r0 end))
          thin store_chain s).
Proof.
  split; [|split; [|split]].
  - intros; apply run_None_no_checkpoint; assumption.
  - intros s s'. unfold reset; unfold_M.
    destruct (dim s <? 0); cbn; intros H; inversion H. reflexivity.
  - intros cov0 dim0 f a k r0 s H. apply init_Ok in H.
    destruct H as [_ ->]. reflexivity.
  - intros; apply run_None_checkpoint; assumption.
Qed.

Lemma range_0 : range 0 = [].
Proof. reflexivity. Qed.

Lemma sample_zero p lnprob rstate thin store_chain s :
  (exists s' e,
      sample p lnprob rstate thin store_chain 0 s = (s', Raise e) /\
      _last_run s' = _last_run s /\
      store_chain = true /\ (thin = 0 \/ dim s < 0)) \/
  (exists s',
      sample p lnprob rstate thin store_chain 0 s = (s', Ok []) /\
      _last_run s' = _last_run s).
Proof.
  unfold sample, bind.
  pose proof (sample_prologue_last_run p lnprob rstate thin store_chain 0 s)
    as Hl.
  destruct (sample_prologue p lnprob rstate thin store_chain 0 s)
    as [s1 [[l i0]|e]] eqn:E; cbn in Hl.
  - right. exists s1. rewrite range_0. cbn. unfold ret. auto.
  - left. exists s1, e. split; [reflexivity|]. split; [exact Hl|].
    revert E; unfold sample_prologue, set_random_state,
      RandomState_set_state, get_lnprob; unfold_M.
    destruct rstate as [o|]; [destruct (rs_set_state o (_random s)) as [? [?|]]|];
      destruct lnprob; cbn; destruct store_chain; cbn; try discriminate;
      destruct (Z.eqb_spec thin 0); cbn; try discriminate; auto;
      destruct (Z.ltb_spec (dim s) 0); cbn; try discriminate; auto.
Qed.

Lemma run_zero_with_position p lnprob0 rstate0 thin store_chain s :
  0 <= dim s ->
  exists s' e,
    run (Some p) 0 lnprob0 rstate0 thin store_chain s = (s', Raise e) /\
    _last_run s' = _last_run s /\
    (store_chain = false \/ thin <> 0 -> e = UnboundLocalError).
Proof.
  intros Hd. rewrite run_with_position.
  destruct (sample_zero p lnprob0 rstate0 thin store_chain s)
    as [(s' & e & -> & Hl & Hs & Ht) | (s' & -> & Hl)].
  - exists s', e. split; [reflexivity|]. split; [exact Hl|].
    intros [H|H]; [congruence|]. destruct Ht; [contradiction|lia].
  - exists s', UnboundLocalError. cbn. auto.
Qed.

(** C10. [run] with [N = 0] never returns: it raises and leaves the
    checkpoint as it was. Unless the call already fails before the loop
    (no position and no checkpoint: [ValueError]; [thin = 0] with
    [store_chain]: [ZeroDivisionError]), nothing is yielded, [results] is
    never bound, and the exception is [UnboundLocalError]. *)
Theorem run_zero_iterations s p0 lnprob0 rstate0 thin store_chain :
  reachable s ->
  exists s' e,
    run p0 0 lnprob0 rstate0 thin store_chain s = (s', Raise e) /\
    _last_run s' = _last_run s /\
    (p0 <> None \/ _last_run s <> None ->
     store_chain = false \/ thin <> 0 ->
     e = UnboundLocalError).
Proof.
  intros Hr. apply reachable_inv in Hr. destruct Hr as [Hd _].
  destruct p0 as [p|].
  - destruct (run_zero_with_position p lnprob0 rstate0 thin store_chain s Hd)
      as (s' & e & E & Hl & He).
    exists s', e. auto.
  - destruct (_last_run s) as [[[p l] r]|] eqn:El.
    + rewrite (run_None_checkpoint s p l r 0 lnprob0 rstate0 thin
                 store_chain El).
      destruct (run_zero_with_position p
                  (Some (match lnprob0 with None => l | Some l0 => l0 end))
                  (Some (match rstate0 with None => r | Some r0 => r0 end))
                  thin store_chain s Hd) as (s' & e & E & Hl & He).
      exists s', e. rewrite <- El. auto.
    + exists s, ValueError. split; [|split; [exact El|]].
      * apply run_None_no_checkpoint, El.
      * intros [H|H]; congruence.
Qed.

(** ** Two samplers side by side *)

Lemma sim_bind {A B} (m : M A) (k : A -> M B) s1 s2 :
  sim s1 s2 (m s1) (m s2) ->
  (forall a s1' s2', agree s1' s2' -> sim s1' s2' (k a s1') (k a s2')) ->
  sim s1 s2 (bind m k s1) (bind m k s2).
Proof.
  unfold bind, sim. intros (Hr & Ha & Hc & Hl1 & Hl2) Hk.
  destruct (m s1) as [s1' [a|e]], (m s2) as [s2' [a'|e']]; cbn in *;
    try discriminate; inversion Hr; subst; auto.
  destruct (Hk a' s1' s2' Ha) as (Hr' & Ha' & Hc' & Hl1' & Hl2').
  repeat split; try assumption; try congruence; try apply Ha'. lia.
Qed.

Lemma sim_pure {A} (f : Sampler -> A) s1 s2 :
  f s1 = f s2 -> agree s1 s2 -> sim s1 s2 (gets f s1) (gets f s2).
Proof.
  unfold sim, gets; cbn. intros -> H. repeat split; try apply H. lia.
Qed.

Lemma agree_record s1 s2 :
  agree s1 s2 -> accepted s1 = accepted s2 -> _last_run s1 = _last_run s2 ->
  s1 = s2.
Proof.
  destruct s1, s2; unfold agree, step_view; cbn.
  intros (H & -> & -> & ->) -> ->. inversion H; subst. reflexivity.
Qed.

Lemma metropolis_step_sim p lnprob s1 s2 :
  agree s1 s2 ->
  sim s1 s2 (metropolis_step p lnprob s1) (metropolis_step p lnprob s2).
Proof.
  intros (Hv & Hc & Hl & Hi).
  destruct (metropolis_step_view p lnprob s1 s2 Hv)
    as (r & acc & pl & -> & ->).
  destruct s1, s2; unfold step_view in Hv; cbn in *; inversion Hv; subst.
  unfold sim, agree, step_view; cbn. repeat split. destruct acc; lia.
Qed.

Lemma store_sim thin store_chain i0 i p lnprob s1 s2 :
  agree s1 s2 ->
  sim s1 s2 (store thin store_chain i0 i p lnprob s1)
            (store thin store_chain i0 i p lnprob s2).
Proof.
  intros (Hv & Hc & Hl & Hi).
  destruct s1, s2; unfold step_view in Hv; cbn in *; inversion Hv; subst.
  unfold store; unfold_M; cbn.
  destruct store_chain; [|unfold sim, agree, step_view; cbn; repeat split; lia].
  destruct (thin =? 0); cbn;
    [unfold sim, agree, step_view; cbn; repeat split; lia|].
  destruct (i mod thin =? 0); cbn;
    [|unfold sim, agree, step_view; cbn; repeat split; lia].
  match goal with
  | |- context [np_setitem ?a ?n p] => destruct (np_setitem a n p)
  end; cbn; [|unfold sim, agree, step_view; cbn; repeat split; lia].
  match goal with
  | |- context [np_setitem ?a ?n lnprob] => destruct (np_setitem a n lnprob)
  end; cbn; unfold sim, agree, step_view; cbn; repeat split; lia.
Qed.

Lemma sample_body_sim thin store_chain i0 i p lnprob s1 s2 :
  agree s1 s2 ->
  sim s1 s2 (sample_body thin store_chain i0 i p lnprob s1)
            (sample_body thin store_chain i0 i p lnprob s2).
Proof.
  intros H. unfold sample_body.
  apply sim_bind; [apply metropolis_step_sim, H|].
  intros [p' l'] s1' s2' H'.
  apply sim_bind; [apply store_sim, H'|].
  intros _ s1'' s2'' H''.
  apply sim_bind.
  - unfold random_state. apply sim_pure; [|exact H''].
    destruct H'' as (Hv & _). unfold step_view in Hv. congruence.
  - intros r t1 t2 Ht. apply (sim_pure (fun _ => (p', l', (p', l', r))));
      auto.
Qed.

Lemma sample_loop_sim thin store_chain i0 idx :
  forall p lnprob s1 s2,
    agree s1 s2 ->
    sim s1 s2 (sample_loop thin store_chain i0 idx p lnprob s1)
              (sample_loop thin store_chain i0 idx p lnprob s2).
Proof.
  induction idx as [|i idx IH]; intros p lnprob s1 s2 H; cbn.
  - apply (sim_pure (fun _ => @nil results)); auto.
  - apply sim_bind; [apply sample_body_sim, H|].
    intros [[p' l'] y] s1' s2' H'.
    apply sim_bind; [apply IH, H'|].
    intros ys t1 t2 Ht. apply (sim_pure (fun _ => y :: ys)); auto.
Qed.

Lemma sample_prologue_sim p lnprob rstate thin store_chain iters s1 s2 :
  agree s1 s2 ->
  sim s1 s2 (sample_prologue p lnprob rstate thin store_chain iters s1)
            (sample_prologue p lnprob rstate thin store_chain iters s2).
Proof.
  intros (Hv & Hc & Hl & Hi).
  destruct s1, s2; unfold step_view in Hv; cbn in *; inversion Hv; subst.
  unfold sample_prologue, set_random_state, RandomState_set_state, get_lnprob.
  unfold_M; cbn.
  destruct rstate as [o|]; [destruct (rs_set_state o _) as [? [?|]]|];
    destruct lnprob; cbn; destruct store_chain; cbn;
    try (unfold sim, agree, step_view; cbn; repeat split; lia);
    destruct (thin =? 0); cbn;
    try (unfold sim, agree, step_view; cbn; repeat split; lia);
    destruct ((iters ÷ thin <? 0) || _); cbn;
    unfold sim, agree, step_view; cbn; repeat split; lia.
Qed.

Lemma sample_sim p lnprob rstate thin store_chain iters s1 s2 :
  agree s1 s2 ->
  sim s1 s2 (sample p lnprob rstate thin store_chain iters s1)
            (sample p lnprob rstate thin store_chain iters s2).
Proof.
  intros H. unfold sample.
  apply sim_bind; [apply sample_prologue_sim, H|].
  intros [l i0] s1' s2' H'. apply sample_loop_sim, H'.
Qed.

Lemma bind_same {A B} (m : M A) (k : A -> M B) s s' :
  m s = m s' -> bind m k s = bind m k s'.
Proof. unfold bind. intros ->. reflexivity. Qed.

Lemma bind_eq {A B} (m : M A) (k : A -> M B) s s1 a :
  m s = (s1, Ok a) -> bind m k s = k a s1.
Proof. unfold bind. intros ->. reflexivity. Qed.

Lemma bind_Ok_inv {A B} (m : M A) (k : A -> M B) s s' b :
  bind m k s = (s', Ok b) ->
  exists s1 a, m s = (s1, Ok a) /\ k a s1 = (s', Ok b).
Proof.
  unfold bind. destruct (m s) as [s1 [a|e]]; [eauto|discriminate].
Qed.

(** With a snapshot of [r], [sample] starts from the generator [r]
    whatever the generator was. *)
Lemma sample_restored (Hsnap : snapshot_law) p lnprob r thin store_chain
      iters s :
  sample p lnprob (Some (rs_get_state r)) thin store_chain iters s =
  sample p lnprob (Some (rs_get_state r)) thin store_chain iters
         (set_random r s).
Proof.
  unfold sample. apply bind_same.
  unfold sample_prologue. apply bind_same.
  rewrite !(set_random_state_accepted _ _ r (Hsnap _ _)).
  destruct s; reflexivity.
Qed.

(** A step sequence that does not store runs to its end. *)
Lemma sample_loop_no_store thin i0 idx :
  forall p lnprob s,
  exists s' ys,
    sample_loop thin false i0 idx p lnprob s = (s', Ok ys) /\
    length ys = length idx.
Proof.
  induction idx as [|i idx IH]; intros p lnprob s; cbn.
  - exists s, []. auto.
  - unfold sample_body, store. unfold bind at 1 2.
    destruct (metropolis_step_stepped p lnprob s) as (r & acc & [p' l'] & ->).
    unfold_M; cbn.
    destruct (IH p' l' (stepped r acc s)) as (s' & ys & -> & Hlen).
    eexists _, _. split; [reflexivity|]. cbn. congruence.
Qed.

Lemma range_length n : length (range n) = Z.to_nat n.
Proof. unfold range. rewrite length_map, length_seq. reflexivity. Qed.

Lemma sample_no_store p lnprob rstate thin iters s :
  exists s' ys,
    sample p lnprob rstate thin false iters s = (s', Ok ys) /\
    length ys = Z.to_nat iters.
Proof.
  assert (P : exists s1 l i0,
             sample_prologue p lnprob rstate thin false iters s
             = (s1, Ok (l, i0))).
  { unfold sample_prologue, set_random_state, RandomState_set_state,
      get_lnprob; unfold_M.
    destruct rstate as [o|]; [destruct (rs_set_state o (_random s)) as [? [?|]]|];
      destruct lnprob; cbn; eauto. }
  destruct P as (s1 & l & i0 & P).
  unfold sample, bind. rewrite P.
  destruct (sample_loop_no_store thin i0 (range iters) p l s1)
    as (s' & ys & -> & Hlen).
  exists s', ys. rewrite <- range_length. auto.
Qed.

(** C4. Two step sequences of the same length, started with the same
    generator snapshot, the same position and the same log-probability on
    samplers with the same problem and the same stored chain, yield the
    same sequence of [(p, lnprob, rstate)] (or raise the same exception)
    and leave the same chain, log-probabilities and generator: nothing
    else in the sampler (its previous generator state, its acceptance
    counter, its checkpoint) has any influence. Without storing, the
    sequence always runs to its end. *)
Theorem sample_replay (Hsnap : snapshot_law) s1 s2 r p lnprob thin
        store_chain iters :
  same_start s1 s2 ->
  snd (sample p lnprob (Some (rs_get_state r)) thin store_chain iters s1) =
  snd (sample p lnprob (Some (rs_get_state r)) thin store_chain iters s2) /\
  _chain (fst (sample p lnprob (Some (rs_get_state r)) thin store_chain
                      iters s1)) =
  _chain (fst (sample p lnprob (Some (rs_get_state r)) thin store_chain
                      iters s2)) /\
  _lnprob (fst (sample p lnprob (Some (rs_get_state r)) thin store_chain
                       iters s1)) =
  _lnprob (fst (sample p lnprob (Some (rs_get_state r)) thin store_chain
                       iters s2)) /\
  _random (fst (sample p lnprob (Some (rs_get_state r)) thin store_chain
                       iters s1)) =
  _random (fst (sample p lnprob (Some (rs_get_state r)) thin store_chain
                       iters s2)) /\
  (store_chain = false ->
   exists ys,
     snd (sample p lnprob (Some (rs_get_state r)) thin store_chain iters s1)
     = Ok ys /\ length ys = Z.to_nat iters).
Proof.
  intros (Hd & Hf & Ha & Hk & Hc & Hch & Hl & Hi).
  rewrite (sample_restored Hsnap p lnprob r thin store_chain iters s1).
  rewrite (sample_restored Hsnap p lnprob r thin store_chain iters s2).
  assert (Hag : agree (set_random r s1) (set_random r s2)).
  { unfold agree, step_view; cbn. repeat split; congruence. }
  destruct (sample_sim p lnprob (Some (rs_get_state r)) thin store_chain
              iters _ _ Hag) as (Hr & (Hv & Hc' & Hl' & _) & _).
  split; [exact Hr|]. split; [exact Hc'|]. split; [exact Hl'|].
  split; [unfold step_view in Hv; congruence|].
  intros ->.
  destruct (sample_no_store p lnprob (Some (rs_get_state r)) thin iters
              (set_random r s1)) as (s' & ys & -> & Hlen).
  exists ys. auto.
Qed.

(** ** Buffers with more rows at the end *)

Lemma list_set_app {A} n (v : A) a b :
  (n < length a)%nat -> list_set n v (a ++ b) = list_set n v a ++ b.
Proof.
  revert n; induction a as [|h t IH]; intros [|n] H; cbn in *;
    try lia; try reflexivity.
  rewrite IH by lia. reflexivity.
Qed.

Lemma np_setitem_app {A} (a b a' : list A) ind v :
  0 <= ind -> np_setitem a ind v = Ok a' ->
  np_setitem (a ++ b) ind v = Ok (a' ++ b).
Proof.
  unfold np_setitem, np_index. rewrite length_app, Nat2Z.inj_add.
  intros Hi.
  destruct (Z.leb_spec 0 ind); [|lia]. cbn.
  destruct (Z.ltb_spec ind (Z.of_nat (length a))); cbn.
  - destruct (Z.ltb_spec ind (Z.of_nat (length a) + Z.of_nat (length b)));
      [|lia].
    intros H'; inversion H'. rewrite list_set_app by lia. reflexivity.
  - destruct (Z.ltb_spec ind 0); [lia|]. rewrite andb_false_r. discriminate.
Qed.

Lemma metropolis_step_ext p lnprob c l s :
  metropolis_step p lnprob (ext c l s) =
  (ext c l (fst (metropolis_step p lnprob s)),
   snd (metropolis_step p lnprob s)).
Proof.
  assert (Hv : step_view s = step_view (ext c l s))
    by (destruct s; reflexivity).
  destruct (metropolis_step_view p lnprob _ _ Hv) as (r & acc & pl & -> & ->).
  destruct s; reflexivity.
Qed.

Lemma store_ext thin store_chain i0 i p lnprob c l s s' :
  0 <= i0 + i ÷ thin ->
  store thin store_chain i0 i p lnprob s = (s', Ok tt) ->
  store thin store_chain i0 i p lnprob (ext c l s) = (ext c l s', Ok tt).
Proof.
  intros Hi. destruct s. unfold store, ext; unfold_M; cbn.
  destruct store_chain; [|intros H; inversion H; reflexivity].
  destruct (thin =? 0); cbn; [discriminate|].
  destruct (i mod thin =? 0); cbn; [|intros H; inversion H; reflexivity].
  destruct (np_setitem _chain0 _ p) as [c'|] eqn:Ec; cbn; [|discriminate].
  rewrite (np_setitem_app _ c _ _ _ Hi Ec); cbn.
  destruct (np_setitem _lnprob0 _ lnprob) as [l'|] eqn:El; cbn;
    [|discriminate].
  rewrite (np_setitem_app _ l _ _ _ Hi El); cbn.
  intros H; inversion H; reflexivity.
Qed.

Lemma sample_body_ext thin store_chain i0 i p lnprob c l s s' x :
  0 <= i0 + i ÷ thin ->
  sample_body thin store_chain i0 i p lnprob s = (s', Ok x) ->
  sample_body thin store_chain i0 i p lnprob (ext c l s) = (ext c l s', Ok x).
Proof.
  intros Hi H. unfold sample_body in *.
  apply bind_Ok_inv in H. destruct H as (s1 & [p' l'] & Hm & H).
  apply bind_Ok_inv in H. destruct H as (s2 & [] & Hs & H).
  rewrite (bind_eq _ _ _ (ext c l s1) (p', l'))
    by (rewrite metropolis_step_ext, Hm; reflexivity).
  rewrite (bind_eq _ _ _ _ _ (store_ext _ _ _ _ _ _ c l _ _ Hi Hs)).
  revert H. unfold random_state; unfold_M. intros H; inversion H; subst.
  destruct s'; reflexivity.
Qed.

Lemma sample_loop_ext thin store_chain i0 c l idx :
  Forall (fun i => 0 <= i0 + i ÷ thin) idx ->
  forall p lnprob s s' ys,
    sample_loop thin store_chain i0 idx p lnprob s = (s', Ok ys) ->
    sample_loop thin store_chain i0 idx p lnprob (ext c l s)
    = (ext c l s', Ok ys).
Proof.
  induction 1 as [|i idx Hi _ IH]; intros p lnprob s s' ys; cbn.
  - unfold ret. intros H; inversion H; reflexivity.
  - intros H.
    apply bind_Ok_inv in H. destruct H as (s1 & [[p' l'] y] & Hb & H).
    apply bind_Ok_inv in H. destruct H as (s2 & ys' & Hl & H).
    rewrite (bind_eq _ _ _ _ _ (sample_body_ext _ _ _ _ _ _ c l _ _ _ Hi Hb)).
    rewrite (bind_eq _ _ _ _ _ (IH _ _ _ _ _ Hl)).
    revert H. unfold ret. intros H; inversion H; reflexivity.
Qed.

(** ** A loop in two parts *)

(** [store] writes into the two buffers and nowhere else. *)
Lemma store_frame thin store_chain i0 i p lnprob s :
  exists c l,
    fst (store thin store_chain i0 i p lnprob s)
    = set_lnprob l (set_chain c s).
Proof.
  destruct s. unfold store, set_lnprob, set_chain; unfold_M; cbn.
  destruct store_chain; [|eexists _, _; reflexivity].
  destruct (thin =? 0); cbn; [eexists _, _; reflexivity|].
  destruct (i mod thin =? 0); cbn; [|eexists _, _; reflexivity].
  destruct (np_setitem _chain0 _ p) as [c'|]; cbn;
    [|eexists _, _; reflexivity].
  destruct (np_setitem _lnprob0 _ lnprob) as [l'|]; cbn;
    eexists _, _; reflexivity.
Qed.

Lemma sample_body_yield thin store_chain i0 i p lnprob s s' p' l' y :
  sample_body thin store_chain i0 i p lnprob s = (s', Ok (p', l', y)) ->
  y = (p', l', rs_get_state (_random s')) /\
  iterations s' = iterations s + 1.
Proof.
  unfold sample_body. intros H.
  apply bind_Ok_inv in H. destruct H as (s1 & [p1 l1] & Hm & H).
  apply bind_Ok_inv in H. destruct H as (s2 & [] & Hs & H).
  destruct (metropolis_step_stepped p lnprob s) as (r & acc & pl & Hm').
  rewrite Hm' in Hm. inversion Hm; subst.
  destruct (store_frame thin store_chain i0 i p1 l1 (stepped r acc s))
    as (c & l & Hf). rewrite Hs in Hf. cbn in Hf. subst s2.
  revert H. unfold random_state; unfold_M. intros H; inversion H; subst.
  split; reflexivity.
Qed.

Lemma last_bound_cons {A} (x : A) xs : exists z, last_bound (x :: xs) = Some z.
Proof.
  revert x; induction xs as [|x' xs IH]; intros x; [exists x; reflexivity|].
  destruct (IH x') as [z Hz]. exists z. exact Hz.
Qed.

Lemma last_bound_cons2 {A} (x y : A) ys :
  last_bound (x :: y :: ys) = last_bound (y :: ys).
Proof. reflexivity. Qed.

Lemma locals_after_cons p l p' l' r ys :
  locals_after p l ((p', l', r) :: ys) = locals_after p' l' ys.
Proof.
  unfold locals_after, results. destruct ys as [|y ys]; [reflexivity|].
  destruct (last_bound_cons y ys) as [z Hz].
  rewrite last_bound_cons2, Hz. reflexivity.
Qed.

Lemma last_bound_cons_app {A} (x y : A) xs ys :
  last_bound ((x :: xs) ++ y :: ys) = last_bound (y :: ys).
Proof.
  revert x; induction xs as [|x' xs IH]; intros x; [reflexivity|].
  change (last_bound ((x' :: xs) ++ y :: ys) = last_bound (y :: ys)).
  apply IH.
Qed.

Lemma last_bound_app {A} (xs ys : list A) :
  ys <> [] -> last_bound (xs ++ ys) = last_bound ys.
Proof.
  destruct ys as [|y ys]; [congruence|intros _].
  destruct xs; [reflexivity|apply last_bound_cons_app].
Qed.

Lemma sample_loop_app thin store_chain i0 idx1 idx2 :
  forall p l s s1 ys1 p1 l1 s2 ys2,
    sample_loop thin store_chain i0 idx1 p l s = (s1, Ok ys1) ->
    locals_after p l ys1 = (p1, l1) ->
    sample_loop thin store_chain i0 idx2 p1 l1 s1 = (s2, Ok ys2) ->
    sample_loop thin store_chain i0 (idx1 ++ idx2) p l s
    = (s2, Ok (ys1 ++ ys2)).
Proof.
  induction idx1 as [|i idx1 IH]; intros p l s s1 ys1 p1 l1 s2 ys2; cbn.
  - unfold ret. intros H; inversion H; subst. cbn.
    intros H'; inversion H'; subst. auto.
  - intros H Hloc H2.
    apply bind_Ok_inv in H. destruct H as (t & [[p' l'] y] & Hb & H).
    apply bind_Ok_inv in H. destruct H as (t' & ys' & Hl & H).
    unfold ret in H. inversion H; subst.
    destruct (sample_body_yield _ _ _ _ _ _ _ _ _ _ _ Hb) as [-> _].
    rewrite locals_after_cons in Hloc.
    rewrite (bind_eq _ _ _ _ _ Hb).
    rewrite (bind_eq _ _ _ _ _ (IH _ _ _ _ _ _ _ _ _ Hl Hloc H2)).
    reflexivity.
Qed.

(** ** Every step stored ([thin = 1]) *)

Lemma store_shift1 store_chain i0 k i p l s :
  store 1 store_chain i0 (k + i) p l s = store 1 store_chain (i0 + k) i p l s.
Proof.
  unfold store. rewrite !Z.mod_1_r, !Z.quot_1_r, Z.add_assoc. reflexivity.
Qed.

Lemma sample_loop_shift1 store_chain i0 k idx :
  forall p l s,
    sample_loop 1 store_chain i0 (map (Z.add k) idx) p l s =
    sample_loop 1 store_chain (i0 + k) idx p l s.
Proof.
  induction idx as [|i idx IH]; intros p l s; [reflexivity|]. cbn.
  unfold sample_body, bind.
  destruct (metropolis_step p l s) as [s1 [[p' l']|e]]; [|reflexivity].
  rewrite store_shift1.
  destruct (store 1 store_chain (i0 + k) i p' l' s1) as [s2 [[]|e]];
    [|reflexivity].
  cbn. rewrite IH. reflexivity.
Qed.

Lemma np_setitem_Ok {A} (a : list A) ind v :
  0 <= ind < Z.of_nat (length a) ->
  exists a', np_setitem a ind v = Ok a' /\ length a' = length a.
Proof.
  intros H. unfold np_setitem, np_index.
  destruct (Z.leb_spec 0 ind); [|lia].
  destruct (Z.ltb_spec ind (Z.of_nat (length a))); [|lia]. cbn.
  eexists; split; [reflexivity|apply list_set_length].
Qed.

Lemma sample_body_thin1_Ok i0 i p l s :
  0 <= i0 + i < Z.of_nat (length (_chain s)) -> parity s ->
  exists s' x,
    sample_body 1 true i0 i p l s = (s', Ok x) /\
    length (_chain s') = length (_chain s) /\ parity s'.
Proof.
  intros Hi Hp. unfold sample_body.
  destruct (metropolis_step_stepped p l s) as (r & acc & [p' l'] & Hm).
  rewrite (bind_eq _ _ _ _ _ Hm).
  unfold store, random_state; unfold_M. cbn.
  rewrite Z.mod_1_r, Z.quot_1_r. cbn.
  destruct (np_setitem_Ok (_chain s) (i0 + i) p' Hi) as (c' & -> & Hc).
  cbn. unfold parity in Hp.
  destruct (np_setitem_Ok (_lnprob s) (i0 + i) l') as (l1 & -> & Hl);
    [rewrite <- Hp; exact Hi|].
  cbn. eexists _, _. split; [reflexivity|]. cbn.
  unfold parity; cbn. split; congruence.
Qed.

Lemma sample_loop_thin1_Ok i0 idx :
  forall p l s,
    Forall (fun i => 0 <= i0 + i < Z.of_nat (length (_chain s))) idx ->
    parity s ->
    exists s' ys,
      sample_loop 1 true i0 idx p l s = (s', Ok ys) /\
      length (_chain s') = length (_chain s) /\ parity s'.
Proof.
  induction idx as [|i idx IH]; intros p l s Hall Hp; cbn.
  - exists s, []. auto.
  - inversion Hall as [|? ? Hi Hrest]; subst.
    destruct (sample_body_thin1_Ok i0 i p l s Hi Hp)
      as (s1 & [[p' l'] y] & Hb & Hlen & Hp1).
    rewrite (bind_eq _ _ _ _ _ Hb).
    destruct (IH p' l' s1) as (s2 & ys & Hl & Hlen2 & Hp2);
      [rewrite Hlen; exact Hrest|exact Hp1|].
    rewrite (bind_eq _ _ _ _ _ Hl). unfold ret.
    eexists _, _. split; [reflexivity|]. split; congruence.
Qed.

(** What a loop that ran to its end leaves: one yield and one iteration
    per index, and the generator whose snapshot was yielded last. *)
Lemma sample_loop_Ok_facts thin store_chain i0 idx :
  forall p l s s' ys,
    sample_loop thin store_chain i0 idx p l s = (s', Ok ys) ->
    length ys = length idx /\
    iterations s' = iterations s + Z.of_nat (length idx) /\
    (forall res, last_bound ys = Some res ->
                 snd res = rs_get_state (_random s')).
Proof.
  induction idx as [|i idx IH]; intros p l s s' ys; cbn.
  - unfold ret. intros H; inversion H; subst. cbn.
    repeat split; [lia|discriminate].
  - intros H.
    apply bind_Ok_inv in H. destruct H as (s1 & [[p' l'] y] & Hb & H).
    apply bind_Ok_inv in H. destruct H as (s2 & ys' & Hl & H).
    unfold ret in H. inversion H; subst.
    destruct (sample_body_yield _ _ _ _ _ _ _ _ _ _ _ Hb) as [-> Hit].
    destruct (IH _ _ _ _ _ Hl) as (Hlen & Hit' & Hlast).
    split; [cbn; congruence|]. split; [lia|].
    intros res. destruct ys' as [|y' ys'].
    + destruct idx; [|discriminate]. cbn in Hl. unfold ret in Hl.
      inversion Hl; subst. cbn. intros E; inversion E. reflexivity.
    + change (last_bound (y' :: ys') = Some res -> snd res =
              rs_get_state (_random s')). apply Hlast.
Qed.

(** ** Stopping and resuming *)

Lemma ext_ext c1 l1 c2 l2 s :
  ext c2 l2 (ext c1 l1 s) = ext (c1 ++ c2) (l1 ++ l2) s.
Proof. destruct s; unfold ext; cbn. rewrite <- !app_assoc. reflexivity. Qed.

Lemma np_zeros_add a b :
  0 <= a -> 0 <= b -> np_zeros (a + b) = np_zeros a ++ np_zeros b.
Proof.
  intros Ha Hb. unfold np_zeros. rewrite Z2Nat.inj_add by assumption.
  apply repeat_app.
Qed.

Lemma np_zeros2_add a b d :
  0 <= a -> 0 <= b -> np_zeros2 (a + b) d = np_zeros2 a d ++ np_zeros2 b d.
Proof.
  intros Ha Hb. unfold np_zeros2. rewrite Z2Nat.inj_add by assumption.
  apply repeat_app.
Qed.

Lemma map_of_nat_seq_shift m :
  forall n k,
    map Z.of_nat (seq (n + k) m)
    = map (Z.add (Z.of_nat n)) (map Z.of_nat (seq k m)).
Proof.
  induction m as [|m IH]; intros n k; cbn; [reflexivity|].
  f_equal; [lia|]. rewrite <- IH. f_equal. f_equal. lia.
Qed.

Lemma range_add a b :
  0 <= a -> 0 <= b -> range (a + b) = range a ++ map (Z.add a) (range b).
Proof.
  intros Ha Hb. unfold range. rewrite Z2Nat.inj_add by assumption.
  rewrite seq_app, map_app. f_equal.
  pose proof (map_of_nat_seq_shift (Z.to_nat b) (Z.to_nat a) 0%nat) as E.
  rewrite Nat.add_0_r, Z2Nat.id in E by assumption. exact E.
Qed.

Lemma range_bounds N : Forall (fun i => 0 <= i < N) (range N).
Proof.
  apply Forall_forall. intros i Hi. unfold range in Hi.
  apply in_map_iff in Hi. destruct Hi as (n & <- & Hn).
  apply in_seq in Hn. lia.
Qed.

(** The prologue of a sequence that stores every step, when the
    generator is left where it is. *)
Lemma sample_prologue_thin1 p lnprob rstate N s :
  0 <= N -> 0 <= dim s ->
  set_random_state rstate s = (s, Ok tt) ->
  sample_prologue p lnprob rstate 1 true N s =
  (ext (np_zeros2 N (dim s)) (np_zeros N) s,
   Ok (match lnprob with
       | Some l => l
       | None => lnprobfn s p (args s) (kwargs s)
       end, iterations s)).
Proof.
  intros HN Hd Hr. unfold sample_prologue.
  rewrite (bind_eq _ _ _ _ _ Hr).
  unfold get_lnprob; unfold_M. rewrite Z.quot_1_r.
  destruct lnprob; cbn;
    destruct (Z.ltb_spec N 0); try lia;
    destruct (Z.ltb_spec (dim s) 0); try lia; reflexivity.
Qed.

Lemma sample_loop_dim thin store_chain i0 idx p l s :
  dim (fst (sample_loop thin store_chain i0 idx p l s)) = dim s.
Proof. apply (sample_loop_kept thin store_chain i0 idx p l s). Qed.

(** A sequence of [N > 0] steps with every step stored, on buffers that
    hold one row per iteration so far, from the generator as it is. *)
Lemma sample_thin1_Ok p lnprob rstate N s :
  0 < N -> 0 <= dim s -> parity s ->
  iterations s = Z.of_nat (length (_chain s)) ->
  set_random_state rstate s = (s, Ok tt) ->
  exists s' ys res,
    sample_loop 1 true (iterations s) (range N) p
      (match lnprob with
       | Some l => l
       | None => lnprobfn s p (args s) (kwargs s)
       end)
      (ext (np_zeros2 N (dim s)) (np_zeros N) s) = (s', Ok ys) /\
    sample p lnprob rstate 1 true N s = (s', Ok ys) /\
    last_bound ys = Some res /\
    snd res = rs_get_state (_random s') /\
    locals_after p
      (match lnprob with
       | Some l => l
       | None => lnprobfn s p (args s) (kwargs s)
       end) ys = fst res /\
    iterations s' = iterations s + N /\
    Z.of_nat (length (_chain s')) = iterations s + N /\
    parity s' /\ dim s' = dim s.
Proof.
  intros HN Hd Hp Hit Hr.
  set (l0 := match lnprob with
             | Some l => l
             | None => lnprobfn s p (args s) (kwargs s)
             end).
  set (s0 := ext (np_zeros2 N (dim s)) (np_zeros N) s).
  assert (Hlen0 : Z.of_nat (length (_chain s0)) = iterations s + N).
  { unfold s0; destruct s; cbn in *. rewrite length_app, np_zeros2_length.
    lia. }
  assert (Hp0 : parity s0).
  { unfold s0, parity in *; destruct s; cbn in *.
    rewrite !length_app, np_zeros2_length, np_zeros_length. lia. }
  destruct (sample_loop_thin1_Ok (iterations s) (range N) p l0 s0)
    as (s' & ys & Hl & Hlen & Hp'); [|exact Hp0|].
  { eapply Forall_impl; [|apply range_bounds].
    intros i Hi. cbv beta in *. rewrite Hlen0. lia. }
  destruct (sample_loop_Ok_facts _ _ _ _ _ _ _ _ _ Hl)
    as (Hys & Hits & Hlast).
  rewrite range_length in Hys.
  destruct ys as [|y ys]; [cbn in Hys; lia|].
  destruct (last_bound_cons y ys) as [res Hres].
  exists s', (y :: ys), res.
  split; [exact Hl|]. split.
  { unfold sample.
    rewrite (bind_eq _ _ _ _ _ (sample_prologue_thin1 p lnprob rstate N s
                                  (Z.lt_le_incl _ _ HN) Hd Hr)).
    exact Hl. }
  split; [exact Hres|]. split; [apply Hlast, Hres|]. split.
  { unfold locals_after, results in *. rewrite Hres.
    destruct res as [[? ?] ?]. reflexivity. }
  split.
  { rewrite Hits, range_length. unfold s0; destruct s; cbn. lia. }
  split; [rewrite Hlen; exact Hlen0|]. split; [exact Hp'|].
  pose proof (sample_loop_dim 1 true (iterations s) (range N) p l0 s0) as E.
  rewrite Hl in E. cbn in E. rewrite E. unfold s0; destruct s; reflexivity.
Qed.

Lemma agree_set_last_run a s1 s2 :
  agree s1 s2 -> accepted s1 = accepted s2 ->
  set_last_run a s1 = set_last_run a s2.
Proof.
  intros H Ha. apply agree_record; [|exact Ha|reflexivity].
  destruct s1, s2; exact H.
Qed.

(** C3. On a sampler whose buffers hold one row per iteration so far
    (a new or reset one, or one only ever run with the default [thin] and
    [store_chain]), for [N1, N2 > 0]: [run(p0, N1)] followed by
    [run(None, N2)] returns what the single [run(p0, N1 + N2)] returns and
    leaves the very same sampler: the same chain and log-probabilities
    (every step of the trajectory), counters, generator and checkpoint.
    The steps yielded by the single run are those of the first run
    followed by those of the second. *)
Theorem run_resume (Hsnap : snapshot_law) s p0 N1 N2 :
  reachable s ->
  iterations s = Z.of_nat (length (_chain s)) ->
  0 < N1 -> 0 < N2 ->
  exists s1 res1 s2 res2 ys1 ys2,
    run (Some p0) N1 None None 1 true s = (s1, Ok res1) /\
    run None N2 None None 1 true s1 = (s2, Ok res2) /\
    run (Some p0) (N1 + N2) None None 1 true s = (s2, Ok res2) /\
    snd (sample p0 None None 1 true N1 s) = Ok ys1 /\
    snd (sample (fst (fst res1)) (Some (snd (fst res1))) (Some (snd res1))
                1 true N2 s1) = Ok ys2 /\
    snd (sample p0 None None 1 true (N1 + N2) s) = Ok (ys1 ++ ys2).
Proof.
  intros Hr Hit H1 H2. destruct (reachable_inv s Hr) as [Hd Hp].
  destruct (sample_thin1_Ok p0 None None N1 s H1 Hd Hp Hit eq_refl)
    as (t1 & ys1 & [[p1 l1] r1] & Hl1 & Hs1 & Hlast1 & Hrs1 & Hloc1 & Hit1
        & Hlen1 & Hp1 & Hd1).
  cbn in Hrs1, Hloc1.
  set (s1 := set_last_run (Some (p1, l1, r1)) t1).
  assert (Hr2 : set_random_state (Some r1) s1 = (s1, Ok tt)).
  { rewrite Hrs1. rewrite (set_random_state_accepted _ _ _ (Hsnap _ _)).
    unfold s1. destruct t1; reflexivity. }
  destruct (sample_thin1_Ok p1 (Some l1) (Some r1) N2 s1 H2)
    as (t2' & ys2 & res2 & Hl2 & Hs2 & Hlast2 & _);
    [unfold s1; cbn; lia | exact Hp1 | unfold s1; cbn; lia | exact Hr2 |].
  (* the single run, up to the checkpoint *)
  set (z1 := np_zeros2 N1 (dim s)) in *. set (y1 := np_zeros N1) in *.
  set (z2 := np_zeros2 N2 (dim s)). set (y2 := np_zeros N2).
  assert (Hsim := sample_loop_sim 1 true (iterations s + N1) (range N2)
                    p1 l1 (ext z2 y2 t1) (ext z2 y2 s1)).
  destruct Hsim as (Hres & Hag & Hacc & _ & _).
  { unfold s1; destruct t1; unfold agree, step_view; cbn. auto. }
  assert (E2 : ext (np_zeros2 N2 (dim s1)) (np_zeros N2) s1 = ext z2 y2 s1).
  { unfold s1, z2, y2. cbn. rewrite Hd1. reflexivity. }
  assert (Ei : iterations s1 = iterations s + N1) by exact Hit1.
  rewrite E2, Ei in Hl2. rewrite Hl2 in Hres, Hag, Hacc. cbn in Hres, Hag, Hacc.
  destruct (sample_loop 1 true (iterations s + N1) (range N2) p1 l1
              (ext z2 y2 t1)) as [t2 rr] eqn:Hl2s.
  cbn in Hres, Hag, Hacc. subst rr.
  assert (Hsingle :
            sample p0 None None 1 true (N1 + N2) s = (t2, Ok (ys1 ++ ys2))).
  { unfold sample.
    rewrite (bind_eq _ _ _ _ _ (sample_prologue_thin1 p0 None None (N1 + N2)
                                  s ltac:(lia) Hd eq_refl)).
    rewrite range_add, np_zeros_add, np_zeros2_add by lia.
    rewrite <- ext_ext. fold z1 y1 z2 y2.
    eapply sample_loop_app.
    - apply sample_loop_ext; [|exact Hl1].
      eapply Forall_impl; [|apply (range_bounds N1)].
      intros i Hi. cbv beta in *. rewrite Z.quot_1_r. lia.
    - exact Hloc1.
    - rewrite sample_loop_shift1. exact Hl2s. }
  assert (Hfin : set_last_run (Some res2) t2 = set_last_run (Some res2) t2').
  { apply agree_set_last_run; [exact Hag|].
    unfold s1 in Hacc. destruct t1; cbn in Hacc. lia. }
  assert (Hne : ys2 <> []) by (intros ->; discriminate).
  exists s1, (p1, l1, r1), (set_last_run (Some res2) t2'), res2, ys1, ys2.
  split.
  { rewrite run_with_position, Hs1, Hlast1. reflexivity. }
  split.
  { rewrite (run_None_checkpoint s1 p1 l1 r1) by reflexivity.
    rewrite run_with_position, Hs2, Hlast2. reflexivity. }
  split.
  { rewrite run_with_position, Hsingle, (last_bound_app _ _ Hne), Hlast2.
    rewrite Hfin. reflexivity. }
  split; [rewrite Hs1; reflexivity|].
  split; [cbn; rewrite Hs2; reflexivity|].
  rewrite Hsingle. reflexivity.
Qed.

(** ** Thinning *)

Lemma sample_body_eq thin store_chain i0 i p l s r acc p' l' :
  metropolis_step p l s = (stepped r acc s, Ok (p', l')) ->
  sample_body thin store_chain i0 i p l s =
  match store thin store_chain i0 i p' l' (stepped r acc s) with
  | (s2, Ok _) => (s2, Ok (p', l', (p', l', rs_get_state (_random s2))))
  | (s2, Raise e) => (s2, Raise e)
  end.
Proof.
  intros H. unfold sample_body. rewrite (bind_eq _ _ _ _ _ H).
  unfold random_state; unfold_M.
  destruct (store thin store_chain i0 i p' l' (stepped r acc s))
    as [s2 [[]|e]]; reflexivity.
Qed.

(** A loop over indices whose writes all fall on existing rows runs to
    its end. *)
Lemma sample_body_store_Ok thin i0 i p l s :
  thin <> 0 ->
  (i mod thin = 0 -> 0 <= i0 + i ÷ thin < Z.of_nat (length (_chain s))) ->
  parity s ->
  exists s' x,
    sample_body thin true i0 i p l s = (s', Ok x) /\
    length (_chain s') = length (_chain s) /\ parity s'.
Proof.
  intros Ht Hi Hp.
  destruct (metropolis_step_stepped p l s) as (r & acc & [p' l'] & Hm).
  rewrite (sample_body_eq thin true i0 i p l s r acc p' l' Hm).
  unfold store; unfold_M.
  destruct (Z.eqb_spec thin 0); [contradiction|]. cbn.
  destruct (Z.eqb_spec (i mod thin) 0) as [Hz|Hz]; cbn.
  - destruct (np_setitem_Ok (_chain s) (i0 + i ÷ thin) p' (Hi Hz))
      as (c' & -> & Hc).
    cbn. unfold parity in Hp.
    destruct (np_setitem_Ok (_lnprob s) (i0 + i ÷ thin) l') as (l1 & -> & Hl);
      [rewrite <- Hp; exact (Hi Hz)|].
    cbn. eexists _, _. split; [reflexivity|]. cbn.
    unfold parity; cbn. split; congruence.
  - eexists _, _. split; [reflexivity|]. cbn. split; [reflexivity|exact Hp].
Qed.

Lemma sample_loop_store_Ok thin i0 idx :
  thin <> 0 ->
  forall p l s,
    Forall (fun i => i mod thin = 0 ->
                     0 <= i0 + i ÷ thin < Z.of_nat (length (_chain s))) idx ->
    parity s ->
    exists s' ys,
      sample_loop thin true i0 idx p l s = (s', Ok ys) /\
      length (_chain s') = length (_chain s) /\ parity s'.
Proof.
  intros Ht. induction idx as [|i idx IH]; intros p l s Hall Hp; cbn.
  - exists s, []. auto.
  - inversion Hall as [|? ? Hi Hrest]; subst.
    destruct (sample_body_store_Ok thin i0 i p l s Ht Hi Hp)
      as (s1 & [[p' l'] y] & Hb & Hlen & Hp1).
    rewrite (bind_eq _ _ _ _ _ Hb).
    destruct (IH p' l' s1) as (s2 & ys & Hl & Hlen2 & Hp2);
      [rewrite Hlen; exact Hrest|exact Hp1|].
    rewrite (bind_eq _ _ _ _ _ Hl). unfold ret.
    eexists _, _. split; [reflexivity|]. split; congruence.
Qed.

(** A write one row past the end. *)
Lemma sample_body_store_IndexError thin i0 i p l s :
  thin <> 0 -> i mod thin = 0 ->
  Z.of_nat (length (_chain s)) <= i0 + i ÷ thin ->
  snd (sample_body thin true i0 i p l s) = Raise IndexError.
Proof.
  intros Ht Hz Hi.
  destruct (metropolis_step_stepped p l s) as (r & acc & [p' l'] & Hm).
  rewrite (sample_body_eq thin true i0 i p l s r acc p' l' Hm).
  unfold store; unfold_M.
  destruct (Z.eqb_spec thin 0); [contradiction|]. cbn.
  rewrite Hz. cbn. unfold np_setitem, np_index.
  destruct (Z.leb_spec 0 (i0 + i ÷ thin)); [|lia].
  destruct (Z.ltb_spec (i0 + i ÷ thin) (Z.of_nat (length (_chain s))));
    [lia|]. cbn.
  destruct (Z.ltb_spec (i0 + i ÷ thin) 0); [lia|].
  rewrite andb_false_r. reflexivity.
Qed.

Lemma bind_Raise {A B} (m : M A) (k : A -> M B) s s1 e :
  m s = (s1, Raise e) -> bind m k s = (s1, Raise e).
Proof. unfold bind. intros ->. reflexivity. Qed.

Lemma sample_loop_app_Raise thin store_chain i0 idx1 i idx2 :
  forall p l s s1 ys1 p1 l1 e,
    sample_loop thin store_chain i0 idx1 p l s = (s1, Ok ys1) ->
    locals_after p l ys1 = (p1, l1) ->
    snd (sample_body thin store_chain i0 i p1 l1 s1) = Raise e ->
    snd (sample_loop thin store_chain i0 (idx1 ++ i :: idx2) p l s)
    = Raise e.
Proof.
  induction idx1 as [|j idx1 IH]; intros p l s s1 ys1 p1 l1 e; cbn.
  - unfold ret. intros H; inversion H; subst. cbn.
    intros H'; inversion H'; subst. intros Hb.
    destruct (sample_body thin store_chain i0 i p1 l1 s1) as [s2 rr] eqn:E.
    cbn in Hb. subst rr. rewrite (bind_Raise _ _ _ _ _ E). reflexivity.
  - intros H Hloc Hb.
    apply bind_Ok_inv in H. destruct H as (t & [[p' l'] y] & Hj & H).
    apply bind_Ok_inv in H. destruct H as (t' & ys' & Hl & H).
    unfold ret in H. inversion H; subst.
    destruct (sample_body_yield _ _ _ _ _ _ _ _ _ _ _ Hj) as [-> _].
    rewrite locals_after_cons in Hloc.
    rewrite (bind_eq _ _ _ _ _ Hj).
    specialize (IH _ _ _ _ _ _ _ _ Hl Hloc Hb).
    destruct (sample_loop thin store_chain i0 (idx1 ++ i :: idx2) p' l' t)
      as [u rr] eqn:E.
    cbn in IH. subst rr. rewrite (bind_Raise _ _ _ _ _ E). reflexivity.
Qed.

(** The prologue of a storing sequence, when the generator is left where
    it is. *)
Lemma sample_prologue_store p lnprob rstate thin N s :
  thin <> 0 -> 0 <= N ÷ thin -> 0 <= dim s ->
  set_random_state rstate s = (s, Ok tt) ->
  sample_prologue p lnprob rstate thin true N s =
  (ext (np_zeros2 (N ÷ thin) (dim s)) (np_zeros (N ÷ thin)) s,
   Ok (match lnprob with
       | Some l => l
       | None => lnprobfn s p (args s) (kwargs s)
       end, iterations s)).
Proof.
  intros Ht HN Hd Hr. unfold sample_prologue.
  rewrite (bind_eq _ _ _ _ _ Hr).
  unfold get_lnprob; unfold_M.
  destruct (Z.eqb_spec thin 0); [contradiction|].
  destruct lnprob; cbn;
    destruct (Z.ltb_spec (N ÷ thin) 0); try lia;
    destruct (Z.ltb_spec (dim s) 0); try lia; reflexivity.
Qed.

Lemma same_len_refl s : same_len s s.
Proof. split; reflexivity. Qed.

Lemma same_len_trans s1 s2 s3 :
  same_len s1 s2 -> same_len s2 s3 -> same_len s1 s3.
Proof. unfold same_len; intuition congruence. Qed.

Lemma sample_body_same_len thin store_chain i0 i p l :
  keeps same_len (sample_body thin store_chain i0 i p l).
Proof.
  intros s.
  destruct (metropolis_step_stepped p l s) as (r & acc & [p' l'] & Hm).
  rewrite (sample_body_eq thin store_chain i0 i p l s r acc p' l' Hm).
  assert (H : same_len s (fst (store thin store_chain i0 i p' l'
                                     (stepped r acc s)))).
  { unfold store; unfold_M.
    destruct store_chain; [|split; reflexivity].
    destruct (thin =? 0); cbn; [split; reflexivity|].
    destruct (i mod thin =? 0); cbn; [|split; reflexivity].
    destruct (np_setitem (_chain s) _ p') as [c|e] eqn:Ec; cbn;
      [|split; reflexivity].
    apply np_setitem_length in Ec.
    destruct (np_setitem (_lnprob s) _ l') as [l1|e] eqn:El; cbn.
    - apply np_setitem_length in El. split; assumption.
    - split; [assumption|reflexivity]. }
  destruct (store thin store_chain i0 i p' l' (stepped r acc s))
    as [s2 [[]|e]]; exact H.
Qed.

Lemma sample_loop_same_len thin store_chain i0 idx :
  forall p l, keeps same_len (sample_loop thin store_chain i0 idx p l).
Proof.
  induction idx as [|i idx IH]; intros p l; cbn.
  - apply keeps_ret, same_len_refl.
  - apply (keeps_bind same_len same_len_trans);
      [apply sample_body_same_len|].
    intros [[p' l'] y].
    apply (keeps_bind same_len same_len_trans); [apply IH|intros ys].
    apply keeps_ret, same_len_refl.
Qed.

(** C2. On a sampler whose buffers hold one row per iteration so far (a
    newly constructed one, say), [run] over [N > 0] steps with [thin = k]
    where [k] does not divide [N] raises [IndexError]: [int(N / k)] rows
    are appended, but the steps [0, k, 2k, ...] below [N] are one more
    than that, and the last of them is written one row past the end. *)
Theorem run_thin_IndexError s p0 N k :
  reachable s ->
  iterations s = Z.of_nat (length (_chain s)) ->
  0 < k -> 0 < N -> N mod k <> 0 ->
  snd (run (Some p0) N None None k true s) = Raise IndexError /\
  length (_chain (fst (run (Some p0) N None None k true s)))
  = (length (_chain s) + Z.to_nat (N / k))%nat.
Proof.
  intros Hr Hit Hk HN Hmod. destruct (reachable_inv s Hr) as [Hd Hp].
  assert (Hq : N ÷ k = N / k) by (apply Z.quot_div_nonneg; lia).
  set (m := N / k) in *.
  assert (Hm : 0 <= m) by (apply Z.div_pos; lia).
  assert (HNm : N = k * m + N mod k) by (apply Z.div_mod; lia).
  assert (Hlt : 0 < N mod k) by (pose proof (Z.mod_pos_bound N k Hk); lia).
  set (l0 := lnprobfn s p0 (args s) (kwargs s)).
  set (s0 := ext (np_zeros2 m (dim s)) (np_zeros m) s).
  assert (Hlen0 : Z.of_nat (length (_chain s0)) = iterations s + m).
  { unfold s0; destruct s; cbn in *. rewrite length_app, np_zeros2_length.
    lia. }
  assert (Hp0 : parity s0).
  { unfold s0, parity in *; destruct s; cbn in *.
    rewrite !length_app, np_zeros2_length, np_zeros_length. lia. }
  assert (Hrange : range N = range (k * m) ++ (k * m) ::
                     map (Z.add (k * m)) (map Z.succ (range (N mod k - 1)))).
  { rewrite HNm at 1. rewrite range_add by lia. f_equal.
    replace (N mod k) with (1 + (N mod k - 1)) at 1 by lia.
    rewrite range_add by lia. cbn [app]. change (range 1) with [0].
    cbn [map app]. rewrite Z.add_0_r. f_equal.
    rewrite !map_map. apply map_ext. intros; lia. }
  destruct (sample_loop_store_Ok k (iterations s) (range (k * m))
              ltac:(lia) p0 l0 s0) as (s1 & ys1 & Hl1 & Hlen1 & Hp1);
    [|exact Hp0|].
  { eapply Forall_impl; [|apply range_bounds].
    intros i Hi Hz. cbv beta in *. rewrite Hlen0.
    rewrite Z.quot_div_nonneg by lia.
    assert (i / k < m) by (apply Z.div_lt_upper_bound; lia).
    assert (0 <= i / k) by (apply Z.div_pos; lia). lia. }
  destruct (locals_after p0 l0 ys1) as [p1 l1] eqn:Hloc.
  assert (Hb : snd (sample_body k true (iterations s) (k * m) p1 l1 s1)
               = Raise IndexError).
  { apply sample_body_store_IndexError; [lia| |].
    - rewrite Z.mul_comm. apply Z.mod_mul. lia.
    - rewrite Hlen1, Hlen0. rewrite Z.quot_div_nonneg by lia.
      rewrite Z.mul_comm, Z.div_mul by lia. lia. }
  assert (Hs : snd (sample p0 None None k true N s) = Raise IndexError /\
               length (_chain (fst (sample p0 None None k true N s)))
               = length (_chain s0)).
  { unfold sample.
    rewrite (bind_eq _ _ _ _ _ (sample_prologue_store p0 None None k N s
                                  ltac:(lia) ltac:(lia) Hd eq_refl)).
    rewrite Hq. fold m l0 s0. split.
    - rewrite Hrange. eapply sample_loop_app_Raise; eassumption.
    - apply (sample_loop_same_len k true (iterations s) (range N) p0 l0 s0). }
  destruct Hs as [Hs1 Hs2].
  rewrite run_with_position.
  destruct (sample p0 None None k true N s) as [s' [ys|e]];
    cbn in Hs1, Hs2; [discriminate|].
  inversion Hs1; subst. cbn. split; [reflexivity|].
  rewrite Hs2. unfold s0; destruct s; cbn.
  rewrite length_app, np_zeros2_length. reflexivity.
Qed.

Lemma np_setitem_list_set {A} (a a' : list A) ind v :
  0 <= ind -> np_setitem a ind v = Ok a' ->
  a' = list_set (Z.to_nat ind) v a.
Proof.
  unfold np_setitem, np_index. intros Hi.
  destruct (Z.leb_spec 0 ind); [|lia]. cbn.
  destruct (ind <? Z.of_nat (length a)); cbn.
  - intros E; inversion E; reflexivity.
  - destruct (Z.ltb_spec ind 0); [lia|]. rewrite andb_false_r. discriminate.
Qed.

Lemma list_set_middle {A} (xs : list A) z zs v :
  list_set (length xs) v (xs ++ z :: zs) = xs ++ v :: zs.
Proof. induction xs as [|x xs IH]; cbn; [reflexivity|]. rewrite IH. reflexivity. Qed.

(** What the loop body leaves in the buffers. *)
Lemma sample_body_rows thin i0 i p l s s1 p' l' y :
  thin <> 0 -> 0 <= i0 + i ÷ thin ->
  sample_body thin true i0 i p l s = (s1, Ok (p', l', y)) ->
  (i mod thin = 0 ->
   _chain s1 = list_set (Z.to_nat (i0 + i ÷ thin)) p' (_chain s) /\
   _lnprob s1 = list_set (Z.to_nat (i0 + i ÷ thin)) l' (_lnprob s)) /\
  (i mod thin <> 0 -> _chain s1 = _chain s /\ _lnprob s1 = _lnprob s).
Proof.
  intros Ht Hi.
  destruct (metropolis_step_stepped p l s) as (r & acc & [p1 l1] & Hm).
  rewrite (sample_body_eq thin true i0 i p l s r acc p1 l1 Hm).
  unfold store; unfold_M.
  destruct (Z.eqb_spec thin 0); [contradiction|]. cbn.
  destruct (Z.eqb_spec (i mod thin) 0) as [Hz|Hz]; cbn.
  - destruct (np_setitem (_chain s) (i0 + i ÷ thin) p1) as [c'|] eqn:Ec;
      cbn; [|discriminate].
    destruct (np_setitem (_lnprob s) (i0 + i ÷ thin) l1) as [l1'|] eqn:El;
      cbn; [|discriminate].
    intros H; inversion H; subst; cbn.
    split; [intros _|contradiction].
    split; apply np_setitem_list_set; assumption.
  - intros H; inversion H; subst; cbn.
    split; [contradiction|]. auto.
Qed.

Lemma np_zeros2_S n d :
  0 < n -> np_zeros2 n d = np_zeros d :: np_zeros2 (n - 1) d.
Proof.
  intros Hn. unfold np_zeros2.
  replace (Z.to_nat n) with (S (Z.to_nat (n - 1))) by lia. reflexivity.
Qed.

Lemma np_zeros_S n : 0 < n -> np_zeros n = 0%float :: np_zeros (n - 1).
Proof.
  intros Hn. unfold np_zeros.
  replace (Z.to_nat n) with (S (Z.to_nat (n - 1))) by lia. reflexivity.
Qed.

(** The rows of a thinned loop: with [j] rows already written for the
    steps below [a], the steps [a, ..., a + n - 1] fill the next rows in
    order with the yields of the multiples of [k]. *)
Lemma sample_loop_rows k m d pre_c pre_l n :
  0 < k ->
  length pre_l = length pre_c ->
  forall a j rows_c rows_l p l s s' ys,
    Z.of_nat a <= k * Z.of_nat j < Z.of_nat a + k ->
    Z.of_nat a + Z.of_nat n <= k * m ->
    length rows_c = j -> length rows_l = j ->
    _chain s = pre_c ++ rows_c ++ np_zeros2 (m - Z.of_nat j) d ->
    _lnprob s = pre_l ++ rows_l ++ np_zeros (m - Z.of_nat j) ->
    sample_loop k true (Z.of_nat (length pre_c)) (map Z.of_nat (seq a n))
                p l s = (s', Ok ys) ->
    exists j',
      Z.of_nat (a + n) <= k * Z.of_nat j' < Z.of_nat (a + n) + k /\
      _chain s' = pre_c ++ (rows_c ++ map (fun y => fst (fst y))
                              (stored k (map Z.of_nat (seq a n)) ys))
                        ++ np_zeros2 (m - Z.of_nat j') d /\
      _lnprob s' = pre_l ++ (rows_l ++ map (fun y => snd (fst y))
                               (stored k (map Z.of_nat (seq a n)) ys))
                         ++ np_zeros (m - Z.of_nat j').
Proof.
  intros Hk Hpre.
  induction n as [|n IH]; intros a j rows_c rows_l p l s s' ys Hj Hn Hrc Hrl
                                 Hc Hl; cbn [seq map sample_loop].
  - unfold ret. intros H; inversion H; subst s' ys. exists j.
    unfold stored; cbn. rewrite !app_nil_r, Nat.add_0_r. auto.
  - intros H. subst j.
    apply bind_Ok_inv in H. destruct H as (s1 & [[p' l'] y] & Hb & H).
    apply bind_Ok_inv in H. destruct H as (s2 & ys' & Hloop & H).
    unfold ret in H. inversion H; subst s2 ys. clear H.
    destruct (sample_body_yield _ _ _ _ _ _ _ _ _ _ _ Hb) as [Hy _].
    assert (Hq : 0 <= Z.of_nat a ÷ k).
    { rewrite Z.quot_div_nonneg by lia. apply Z.div_pos; lia. }
    destruct (sample_body_rows k (Z.of_nat (length pre_c)) (Z.of_nat a) p l s
                s1 p' l' y ltac:(lia) ltac:(lia) Hb) as [Hhit Hmiss].
    unfold stored. cbn [combine filter fst].
    destruct (Z.eqb_spec (Z.of_nat a mod k) 0) as [Hz|Hz].
    + (* a = k * j: the step is stored in row [j] *)
      assert (Ha : Z.of_nat a = k * Z.of_nat (length rows_c)).
      { apply Z.mod_divide in Hz; [|lia]. destruct Hz as [q Hq'].
        assert (q = Z.of_nat (length rows_c)) by nia. subst q. lia. }
      assert (Hjm : Z.of_nat (length rows_c) < m) by nia.
      destruct (Hhit Hz) as [Hc1 Hl1].
      assert (Hidx : Z.to_nat (Z.of_nat (length pre_c) + Z.of_nat a ÷ k)
                     = length (pre_c ++ rows_c)).
      { rewrite Ha, Z.mul_comm, Z.quot_mul by lia. rewrite length_app. lia. }
      assert (Hidx' : Z.to_nat (Z.of_nat (length pre_c) + Z.of_nat a ÷ k)
                      = length (pre_l ++ rows_l)).
      { rewrite Hidx, !length_app. lia. }
      rewrite Hidx, Hc in Hc1. rewrite Hidx', Hl in Hl1.
      rewrite np_zeros2_S in Hc1 by lia. rewrite np_zeros_S in Hl1 by lia.
      rewrite app_assoc, list_set_middle, <- app_assoc in Hc1.
      rewrite app_assoc, list_set_middle, <- app_assoc in Hl1.
      destruct (IH (S a) (S (length rows_c)) (rows_c ++ [p'])
                   (rows_l ++ [l']) p' l' s1 s' ys') as (j' & Hj' & Hc' & Hl');
        try (rewrite length_app; cbn; lia); try lia.
      * replace (m - Z.of_nat (S (length rows_c)))
          with (m - Z.of_nat (length rows_c) - 1) by lia.
        rewrite Hc1, <- app_assoc. reflexivity.
      * replace (m - Z.of_nat (S (length rows_c)))
          with (m - Z.of_nat (length rows_c) - 1) by lia.
        rewrite Hl1, <- app_assoc. reflexivity.
      * exact Hloop.
      * exists j'. split; [rewrite <- Nat.add_succ_comm; exact Hj'|].
        subst y. cbn [map snd fst].
        fold (stored k (map Z.of_nat (seq (S a) n)) ys').
        rewrite Hc', Hl', <- !app_assoc. cbn [app]. auto.
    + (* not a multiple of [k]: nothing is written *)
      destruct (Hmiss Hz) as [Hc1 Hl1].
      assert (Hlt : Z.of_nat a < k * Z.of_nat (length rows_c)).
      { destruct (Z.eq_dec (Z.of_nat a) (k * Z.of_nat (length rows_c)))
          as [E|E]; [|lia].
        exfalso. apply Hz. rewrite E, Z.mul_comm. apply Z.mod_mul. lia. }
      destruct (IH (S a) (length rows_c) rows_c rows_l p' l' s1 s' ys')
        as (j' & Hj' & Hc' & Hl'); try lia; try congruence.
      exists j'. split; [rewrite <- Nat.add_succ_comm; exact Hj'|].
      fold (stored k (map Z.of_nat (seq (S a) n)) ys'). auto.
Qed.

(** Where thinning works: on a sampler whose buffers hold one row per
    iteration so far, [run] over [N > 0] steps with [thin = k] dividing [N]
    returns, and appends exactly the [N / k] rows of the steps
    [0, k, 2k, ...] of the call, in order. *)
Lemma run_thin_divides s p0 N k :
  reachable s ->
  iterations s = Z.of_nat (length (_chain s)) ->
  0 < k -> 0 < N -> N mod k = 0 ->
  exists s' res ys,
    run (Some p0) N None None k true s = (s', Ok res) /\
    snd (sample p0 None None k true N s) = Ok ys /\
    length ys = Z.to_nat N /\
    _chain s' = _chain s ++ map (fun y => fst (fst y))
                                (stored k (range N) ys) /\
    _lnprob s' = _lnprob s ++ map (fun y => snd (fst y))
                                  (stored k (range N) ys) /\
    length (stored k (range N) ys) = Z.to_nat (N / k).
Proof.
  intros Hr Hit Hk HN Hmod. destruct (reachable_inv s Hr) as [Hd Hp].
  assert (Hq : N ÷ k = N / k) by (apply Z.quot_div_nonneg; lia).
  set (m := N / k) in *.
  assert (HNm : N = k * m).
  { pose proof (Z.div_mod N k ltac:(lia)) as E. fold m in E. lia. }
  assert (Hm : 0 < m) by nia.
  set (l0 := lnprobfn s p0 (args s) (kwargs s)).
  set (s0 := ext (np_zeros2 m (dim s)) (np_zeros m) s).
  assert (Hc0 : _chain s0 = _chain s ++ [] ++ np_zeros2 (m - Z.of_nat 0) (dim s)).
  { unfold s0; destruct s; cbn. rewrite Z.sub_0_r. reflexivity. }
  assert (Hl0 : _lnprob s0 = _lnprob s ++ [] ++ np_zeros (m - Z.of_nat 0)).
  { unfold s0; destruct s; cbn. rewrite Z.sub_0_r. reflexivity. }
  assert (Hlen0 : Z.of_nat (length (_chain s0)) = iterations s + m).
  { unfold s0; destruct s; cbn in *. rewrite length_app, np_zeros2_length.
    lia. }
  assert (Hp0 : parity s0).
  { unfold s0, parity in *; destruct s; cbn in *.
    rewrite !length_app, np_zeros2_length, np_zeros_length. lia. }
  destruct (sample_loop_store_Ok k (iterations s) (range N) ltac:(lia)
              p0 l0 s0) as (s1 & ys & Hloop & Hlen1 & Hp1); [|exact Hp0|].
  { eapply Forall_impl; [|apply range_bounds].
    intros i Hi Hz. cbv beta in *. rewrite Hlen0.
    rewrite Z.quot_div_nonneg by lia.
    assert (i / k < m) by (apply Z.div_lt_upper_bound; lia).
    assert (0 <= i / k) by (apply Z.div_pos; lia). lia. }
  destruct (sample_loop_Ok_facts _ _ _ _ _ _ _ _ _ Hloop) as (Hys & _ & _).
  rewrite range_length in Hys.
  assert (Hs : sample p0 None None k true N s = (s1, Ok ys)).
  { unfold sample.
    rewrite (bind_eq _ _ _ _ _ (sample_prologue_store p0 None None k N s
                                  ltac:(lia) ltac:(lia) Hd eq_refl)).
    rewrite Hq. exact Hloop. }
  assert (Hloop' := Hloop). unfold range in Hloop'. rewrite Hit in Hloop'.
  destruct (sample_loop_rows k m (dim s) (_chain s) (_lnprob s) (Z.to_nat N)
              Hk (eq_sym Hp) 0%nat 0%nat [] [] p0 l0 s0 s1 ys)
    as (j' & Hj' & Hc' & Hl'); try reflexivity; try assumption; try lia.
  assert (Hjm : j' = Z.to_nat m).
  { assert (H1 : k * m <= k * Z.of_nat j') by lia.
    assert (H2 : k * Z.of_nat j' < k * (m + 1)) by lia.
    apply Z.mul_le_mono_pos_l in H1; [|exact Hk].
    apply Z.mul_lt_mono_pos_l in H2; [|exact Hk]. lia. }
  subst j'.
  rewrite Z2Nat.id, Z.sub_diag in Hc', Hl' by lia.
  change (np_zeros2 0 (dim s)) with (@nil (list float)) in Hc'.
  change (np_zeros 0) with (@nil float) in Hl'.
  rewrite app_nil_r in Hc', Hl'. cbn [app] in Hc', Hl'.
  fold (range N) in Hc', Hl'.
  destruct ys as [|y ys']; [cbn in Hys; lia|].
  destruct (last_bound_cons y ys') as [res Hres].
  exists (set_last_run (Some res) s1), res, (y :: ys').
  split; [rewrite run_with_position, Hs, Hres; reflexivity|].
  split; [rewrite Hs; reflexivity|].
  split; [exact Hys|]. split; [exact Hc'|]. split; [exact Hl'|].
  assert (E : length (_chain s1) = (length (_chain s) + Z.to_nat m)%nat) by lia.
  rewrite Hc', length_app, length_map in E.
  apply Nat.add_cancel_l in E. exact E.
Qed.

(** * More of the sampler *)

(** ** The counters *)

Lemma counted_refl s : counted s s.
Proof. unfold counted; lia. Qed.

Lemma counted_trans s1 s2 s3 : counted s1 s2 -> counted s2 s3 -> counted s1 s3.
Proof. unfold counted; lia. Qed.

Lemma set_random_state_counted state : keeps counted (set_random_state state).
Proof.
  intros s. unfold set_random_state, RandomState_set_state; unfold_M.
  destruct state as [o|]; [destruct (rs_set_state o (_random s)) as [? [?|]]|];
    cbn; unfold counted; cbn; lia.
Qed.

(** The prologue touches neither counter nor the checkpoint. *)
Lemma sample_prologue_counters p lnprob rstate thin store_chain iters s :
  iterations (fst (sample_prologue p lnprob rstate thin store_chain iters s))
  = iterations s /\
  accepted (fst (sample_prologue p lnprob rstate thin store_chain iters s))
  = accepted s.
Proof.
  unfold sample_prologue, set_random_state, RandomState_set_state, get_lnprob.
  unfold_M.
  destruct rstate as [o|]; [destruct (rs_set_state o (_random s)) as [? [?|]]|];
    destruct lnprob; cbn; destruct store_chain; cbn; auto;
    destruct (thin =? 0); cbn; auto;
    destruct ((iters ÷ thin <? 0) || (dim s <? 0)); cbn; auto.
Qed.

Lemma sample_prologue_counted p lnprob rstate thin store_chain iters :
  keeps counted (sample_prologue p lnprob rstate thin store_chain iters).
Proof.
  intros s.
  destruct (sample_prologue_counters p lnprob rstate thin store_chain iters s)
    as [Hi Ha].
  unfold counted. lia.
Qed.

Lemma sample_body_counters thin store_chain i0 i p l s :
  iterations (fst (sample_body thin store_chain i0 i p l s))
  = iterations s + 1 /\
  accepted s <= accepted (fst (sample_body thin store_chain i0 i p l s))
  <= accepted s + 1.
Proof.
  destruct (metropolis_step_stepped p l s) as (r & acc & [p' l'] & Hm).
  rewrite (sample_body_eq thin store_chain i0 i p l s r acc p' l' Hm).
  destruct (store_frame thin store_chain i0 i p' l' (stepped r acc s))
    as (c & l1 & Hf).
  destruct (store thin store_chain i0 i p' l' (stepped r acc s))
    as [s2 [[]|e]]; cbn in Hf; subst s2; cbn; destruct acc; lia.
Qed.

Lemma sample_body_counted thin store_chain i0 i p l :
  keeps counted (sample_body thin store_chain i0 i p l).
Proof.
  intros s. destruct (sample_body_counters thin store_chain i0 i p l s).
  unfold counted. lia.
Qed.

Lemma sample_loop_counted thin store_chain i0 idx :
  forall p l, keeps counted (sample_loop thin store_chain i0 idx p l).
Proof.
  induction idx as [|i idx IH]; intros p l; cbn.
  - apply keeps_ret, counted_refl.
  - apply (keeps_bind counted counted_trans); [apply sample_body_counted|].
    intros [[p' l'] y].
    apply (keeps_bind counted counted_trans); [apply IH|intros ys].
    apply keeps_ret, counted_refl.
Qed.

Lemma sample_counted p lnprob rstate thin store_chain iters :
  keeps counted (sample p lnprob rstate thin store_chain iters).
Proof.
  unfold sample.
  apply (keeps_bind counted counted_trans); [apply sample_prologue_counted|].
  intros [l i0]. apply sample_loop_counted.
Qed.

Lemma run_counted p0 N lnprob0 rstate0 thin store_chain :
  keeps counted (run p0 N lnprob0 rstate0 thin store_chain).
Proof.
  unfold run.
  apply (keeps_bind counted counted_trans).
  { destruct p0 as [p|]; [apply keeps_ret, counted_refl|].
    apply (keeps_bind counted counted_trans); [apply keeps_gets, counted_refl|].
    intros [[[lp ll] lr]|]; [apply keeps_ret|apply keeps_raise];
      apply counted_refl. }
  intros [[p l] r].
  apply (keeps_bind counted counted_trans); [apply sample_counted|intros ys].
  apply (keeps_bind counted counted_trans).
  { destruct (last_bound ys); [apply keeps_ret|apply keeps_raise];
      apply counted_refl. }
  intros res.
  apply (keeps_bind counted counted_trans);
    [|intros _; apply keeps_ret, counted_refl].
  apply keeps_modify. intros s. unfold counted; cbn; lia.
Qed.

Lemma reachable_counters s :
  reachable s -> 0 <= accepted s <= iterations s.
Proof.
  assert (K : forall s s', counted s s' ->
                           0 <= accepted s <= iterations s ->
                           0 <= accepted s' <= iterations s').
  { unfold counted. intros; lia. }
  induction 1 as [cov0 dim0 f a k r0 s Hi| | | | | ].
  - apply init_Ok in Hi. destruct Hi as [_ ->]. cbn. lia.
  - unfold reset; unfold_M. destruct (dim s <? 0); cbn; [assumption|lia].
  - eapply K; [apply set_random_state_counted|assumption].
  - eapply K; [apply sample_prologue_counted|assumption].
  - eapply K; [apply sample_body_counted|assumption].
  - eapply K; [apply run_counted|assumption].
Qed.

(** In every state a sampler object goes through, the acceptances counted
    are between zero and the iterations counted; and a call of [run],
    returning or raising, counts no more new acceptances than new
    iterations. *)
Theorem accepted_le_iterations s :
  reachable s ->
  0 <= accepted s <= iterations s /\
  forall p0 N lnprob0 rstate0 thin store_chain,
    counted s (fst (run p0 N lnprob0 rstate0 thin store_chain s)).
Proof.
  intros H. split; [apply reachable_counters, H|].
  intros. apply run_counted.
Qed.

(** ** What [run] leaves behind *)

Lemma sample_last_run p lnprob rstate thin store_chain iters s :
  _last_run (fst (sample p lnprob rstate thin store_chain iters s))
  = _last_run s.
Proof.
  assert (Ha : agree s s) by (unfold agree; auto).
  apply (sample_sim p lnprob rstate thin store_chain iters s s Ha).
Qed.

Lemma sample_Ok_facts p lnprob rstate thin store_chain iters s s' ys :
  sample p lnprob rstate thin store_chain iters s = (s', Ok ys) ->
  length ys = Z.to_nat iters /\
  iterations s' = iterations s + Z.of_nat (Z.to_nat iters) /\
  (forall res, last_bound ys = Some res ->
               snd res = rs_get_state (_random s')).
Proof.
  unfold sample. intros H.
  apply bind_Ok_inv in H. destruct H as (s0 & [l i0] & Hp & Hl).
  destruct (sample_prologue_counters p lnprob rstate thin store_chain iters s)
    as [Hi _].
  rewrite Hp in Hi. cbn in Hi.
  destruct (sample_loop_Ok_facts _ _ _ _ _ _ _ _ _ Hl) as (Hlen & Hit & Hr).
  rewrite range_length in Hlen, Hit. repeat split; try assumption. lia.
Qed.

(** [sample] yields after every step, not only after the stored ones:
    driven to its end it has yielded [N] triples whatever [thin] and
    [store_chain] are, [iterations] has grown by [N], and the last triple
    is what [run] returns and keeps as checkpoint. *)
Theorem sample_yields_every_step p lnprob rstate thin store_chain N s s' ys :
  sample p lnprob rstate thin store_chain N s = (s', Ok ys) ->
  length ys = Z.to_nat N /\
  iterations s' = iterations s + Z.of_nat (Z.to_nat N) /\
  (forall res,
      last_bound ys = Some res ->
      run (Some p) N lnprob rstate thin store_chain s
      = (set_last_run (Some res) s', Ok res)) /\
  (last_bound ys = None -> N <= 0).
Proof.
  intros H.
  destruct (sample_Ok_facts _ _ _ _ _ _ _ _ _ H) as (Hlen & Hit & _).
  split; [exact Hlen|]. split; [exact Hit|]. split.
  - intros res Hres. rewrite run_with_position, H, Hres. reflexivity.
  - destruct ys as [|y ys]; [cbn in Hlen; lia|].
    destruct (last_bound_cons y ys) as [z Hz]. congruence.
Qed.

(** The starting point [run] resolves, with the sampler untouched, or the
    [ValueError]. *)
Lemma run_cases p0 N lnprob0 rstate0 thin store_chain s :
  run p0 N lnprob0 rstate0 thin store_chain s = (s, Raise ValueError) \/
  exists p l r,
    run p0 N lnprob0 rstate0 thin store_chain s =
    run (Some p) N l r thin store_chain s.
Proof.
  destruct p0 as [p|]; [right; eauto|].
  destruct (_last_run s) as [[[p l] r]|] eqn:E.
  - right. eexists _, _, _. apply (run_None_checkpoint s p l r); exact E.
  - left. apply run_None_no_checkpoint, E.
Qed.

Lemma run_Ok_iterations p0 N lnprob0 rstate0 thin store_chain s s' res :
  run p0 N lnprob0 rstate0 thin store_chain s = (s', Ok res) ->
  0 < N /\ iterations s' = iterations s + N.
Proof.
  intros H.
  destruct (run_cases p0 N lnprob0 rstate0 thin store_chain s)
    as [E|(p & l & r & E)]; rewrite E in H; [discriminate|clear E].
  rewrite run_with_position in H.
  destruct (sample p l r thin store_chain N s) as [s1 [ys|e]] eqn:Es;
    [|discriminate].
  destruct (last_bound ys) as [res'|] eqn:El; [|discriminate].
  inversion H; subst s' res'. clear H.
  destruct (sample_Ok_facts _ _ _ _ _ _ _ _ _ Es) as (Hlen & Hit & _).
  assert (HN : 0 < N).
  { destruct ys; [discriminate|]. cbn in Hlen. lia. }
  rewrite Z2Nat.id in Hit by lia. cbn. auto.
Qed.

(** When [run] returns: at least one step was asked for, [iterations] has
    grown by exactly [N] and [accepted] by at most [N], the checkpoint is
    the returned triple, and its generator state is the snapshot of the
    generator as [run] leaves it. *)
Theorem run_Ok_facts p0 N lnprob0 rstate0 thin store_chain s s' res :
  run p0 N lnprob0 rstate0 thin store_chain s = (s', Ok res) ->
  0 < N /\
  iterations s' = iterations s + N /\
  accepted s <= accepted s' <= accepted s + N /\
  _last_run s' = Some res /\
  random_state s' = (s', Ok (snd res)).
Proof.
  intros H.
  pose proof (run_counted p0 N lnprob0 rstate0 thin store_chain s) as Hc.
  rewrite H in Hc. cbn in Hc.
  destruct (run_cases p0 N lnprob0 rstate0 thin store_chain s)
    as [E|(p & l & r & E)]; rewrite E in H; [discriminate|clear E].
  rewrite run_with_position in H.
  destruct (sample p l r thin store_chain N s) as [s1 [ys|e]] eqn:Es;
    [|discriminate].
  destruct (last_bound ys) as [res'|] eqn:El; [|discriminate].
  inversion H; subst s' res'. clear H.
  destruct (sample_Ok_facts _ _ _ _ _ _ _ _ _ Es) as (Hlen & Hit & Hr).
  assert (HN : 0 < N).
  { destruct ys; [discriminate|]. cbn in Hlen. lia. }
  rewrite Z2Nat.id in Hit by lia.
  unfold counted in Hc. cbn in *.
  split; [exact HN|]. split; [exact Hit|]. split; [lia|]. split; [reflexivity|].
  unfold random_state, gets. cbn. rewrite (Hr res El). reflexivity.
Qed.

(** When [run] raises, whatever the exception and however far it got, the
    checkpoint is the one it had. *)
Theorem run_Raise_keeps_checkpoint p0 N lnprob0 rstate0 thin store_chain s e :
  snd (run p0 N lnprob0 rstate0 thin store_chain s) = Raise e ->
  _last_run (fst (run p0 N lnprob0 rstate0 thin store_chain s)) = _last_run s.
Proof.
  destruct (run_cases p0 N lnprob0 rstate0 thin store_chain s)
    as [E|(p & l & r & E)]; rewrite E; [reflexivity|clear E].
  rewrite run_with_position.
  pose proof (sample_last_run p l r thin store_chain N s) as Hl.
  destruct (sample p l r thin store_chain N s) as [s1 [ys|e']];
    cbn in Hl; [|intros _; exact Hl].
  destruct (last_bound ys); cbn; [discriminate|intros _; exact Hl].
Qed.

(** With a position given, the checkpoint plays no part: [lnprob0] and
    [rstate0], when omitted, are not taken from it. The result is the same
    with any checkpoint, and so is the sampler when [run] returns. *)
Theorem run_with_position_ignores_checkpoint p N lnprob0 rstate0 thin
        store_chain c s :
  snd (run (Some p) N lnprob0 rstate0 thin store_chain (set_last_run c s)) =
  snd (run (Some p) N lnprob0 rstate0 thin store_chain s) /\
  (is_Ok (snd (run (Some p) N lnprob0 rstate0 thin store_chain s)) = true ->
   run (Some p) N lnprob0 rstate0 thin store_chain (set_last_run c s) =
   run (Some p) N lnprob0 rstate0 thin store_chain s).
Proof.
  rewrite !run_with_position.
  assert (Ha : agree (set_last_run c s) s).
  { destruct s; unfold agree, step_view; cbn; auto. }
  destruct (sample_sim p lnprob0 rstate0 thin store_chain N _ _ Ha)
    as (Hr & Hag & Hacc & _ & _).
  destruct (sample p lnprob0 rstate0 thin store_chain N (set_last_run c s))
    as [s1 r1], (sample p lnprob0 rstate0 thin store_chain N s) as [s2 r2].
  cbn in Hr, Hag, Hacc. subst r2.
  destruct r1 as [ys|e]; [|split; [reflexivity|discriminate]].
  destruct (last_bound ys) as [res|]; [|split; [reflexivity|discriminate]].
  assert (E : set_last_run (Some res) s1 = set_last_run (Some res) s2).
  { apply agree_set_last_run; [exact Hag|]. destruct s; cbn in Hacc. lia. }
  rewrite E. split; reflexivity.
Qed.

(** No method changes the problem: the dimension, the callback, its fixed
    arguments and the proposal covariance after [reset], the setter,
    [sample] and [run] are the ones before, whether they return or raise. *)
Theorem problem_definition_kept s :
  (forall s',
      s' = fst (reset s) ->
      (dim s', lnprobfn s', args s', kwargs s', cov s')
      = (dim s, lnprobfn s, args s, kwargs s, cov s)) /\
  (forall state s',
      s' = fst (set_random_state state s) ->
      (dim s', lnprobfn s', args s', kwargs s', cov s')
      = (dim s, lnprobfn s, args s, kwargs s, cov s)) /\
  (forall p lnprob rstate thin store_chain iters s',
      s' = fst (sample p lnprob rstate thin store_chain iters s) ->
      (dim s', lnprobfn s', args s', kwargs s', cov s')
      = (dim s, lnprobfn s, args s, kwargs s, cov s)) /\
  (forall p0 N lnprob0 rstate0 thin store_chain s',
      s' = fst (run p0 N lnprob0 rstate0 thin store_chain s) ->
      (dim s', lnprobfn s', args s', kwargs s', cov s')
      = (dim s, lnprobfn s, args s, kwargs s, cov s)).
Proof.
  assert (K : forall s', kept s s' ->
                (dim s', lnprobfn s', args s', kwargs s', cov s')
                = (dim s, lnprobfn s, args s, kwargs s, cov s)).
  { unfold kept. intros s' (-> & -> & -> & -> & -> & _). reflexivity. }
  split; [|split; [|split]]; intros; subst; apply K.
  - apply reset_kept.
  - apply set_random_state_kept.
  - apply sample_kept.
  - apply run_kept.
Qed.

(** ** Edge cases of [run] *)

Lemma range_nonpos N : N <= 0 -> range N = [].
Proof.
  intros H. unfold range. replace (Z.to_nat N) with 0%nat by lia. reflexivity.
Qed.

(** [run] asked for no step or a negative number of steps never returns:
    it raises, and takes no step, counts nothing and leaves the checkpoint
    as it was. *)
Theorem run_nonpositive p0 N lnprob0 rstate0 thin store_chain s :
  N <= 0 ->
  exists s' e,
    run p0 N lnprob0 rstate0 thin store_chain s = (s', Raise e) /\
    _last_run s' = _last_run s /\
    iterations s' = iterations s /\ accepted s' = accepted s.
Proof.
  intros HN.
  destruct (run_cases p0 N lnprob0 rstate0 thin store_chain s)
    as [E|(p & l & r & E)]; rewrite E; [eauto 6|clear E].
  rewrite run_with_position. unfold sample, bind. rewrite (range_nonpos N HN).
  pose proof (sample_prologue_last_run p l r thin store_chain N s) as Hl.
  destruct (sample_prologue_counters p l r thin store_chain N s) as [Hi Ha].
  destruct (sample_prologue p l r thin store_chain N s) as [s0 [[l0 i0]|e]];
    cbn in *; eauto 6.
Qed.

Lemma sample_loop_no_store_buffers thin i0 idx :
  forall p l s,
    _chain (fst (sample_loop thin false i0 idx p l s)) = _chain s /\
    _lnprob (fst (sample_loop thin false i0 idx p l s)) = _lnprob s.
Proof.
  induction idx as [|i idx IH]; intros p l s; cbn; [auto|].
  unfold bind.
  destruct (metropolis_step_stepped p l s) as (r & acc & [p' l'] & Hm).
  rewrite (sample_body_eq thin false i0 i p l s r acc p' l' Hm).
  unfold store, ret. cbn.
  destruct (IH p' l' (stepped r acc s)) as [Hc Hl].
  destruct (sample_loop thin false i0 idx p' l' (stepped r acc s))
    as [s2 [ys|e]]; cbn in *; auto.
Qed.

(** Without storing, [run] over [N > 0] steps returns for every [thin],
    zero and negative values included, and leaves the chain and the
    log-probabilities as they were. *)
Theorem run_without_storing p N lnprob0 rstate0 thin s :
  0 < N ->
  exists s' res,
    run (Some p) N lnprob0 rstate0 thin false s = (s', Ok res) /\
    _chain s' = _chain s /\ _lnprob s' = _lnprob s /\
    iterations s' = iterations s + N.
Proof.
  intros HN.
  destruct (sample_no_store p lnprob0 rstate0 thin N s)
    as (s1 & ys & Hs & Hlen).
  assert (Hb : _chain s1 = _chain s /\ _lnprob s1 = _lnprob s).
  { revert Hs. unfold sample. intros Hs.
    apply bind_Ok_inv in Hs. destruct Hs as (s0 & [l0 i0] & Hp & Hl).
    pose proof (sample_loop_no_store_buffers thin i0 (range N) p l0 s0) as H.
    rewrite Hl in H. cbn in H.
    assert (H0 : _chain s0 = _chain s /\ _lnprob s0 = _lnprob s).
    { revert Hp. unfold sample_prologue, set_random_state,
        RandomState_set_state, get_lnprob; unfold_M.
      destruct rstate0 as [o|]; [destruct (rs_set_state o (_random s)) as [? [?|]]|];
        destruct lnprob0; cbn; intros E; inversion E; subst; cbn; auto. }
    destruct H, H0. split; congruence. }
  destruct ys as [|y ys]; [cbn in Hlen; lia|].
  destruct (last_bound_cons y ys) as [res Hres].
  assert (Hrun : run (Some p) N lnprob0 rstate0 thin false s
                 = (set_last_run (Some res) s1, Ok res)).
  { rewrite run_with_position, Hs. unfold results in *. rewrite Hres.
    reflexivity. }
  exists (set_last_run (Some res) s1), res.
  split; [exact Hrun|]. cbn.
  destruct (run_Ok_iterations _ _ _ _ _ _ _ _ _ Hrun) as [_ Hi]. cbn in Hi.
  tauto.
Qed.

(** With [thin = 0] and storing, [run] raises [ZeroDivisionError] before
    any step: nothing has changed but the generator, which is as the
    setter leaves it for [rstate0]. *)
Theorem run_thin_zero p N lnprob0 rstate0 s :
  run (Some p) N lnprob0 rstate0 0 true s
  = (fst (set_random_state rstate0 s), Raise ZeroDivisionError) /\
  forall s', s' = fst (run (Some p) N lnprob0 rstate0 0 true s) ->
    _chain s' = _chain s /\ _lnprob s' = _lnprob s /\
    iterations s' = iterations s /\ accepted s' = accepted s /\
    _last_run s' = _last_run s.
Proof.
  assert (E : run (Some p) N lnprob0 rstate0 0 true s
              = (fst (set_random_state rstate0 s), Raise ZeroDivisionError)).
  { rewrite run_with_position.
    unfold sample, sample_prologue, set_random_state, RandomState_set_state,
      get_lnprob; unfold_M.
    destruct rstate0 as [o|]; [destruct (rs_set_state o (_random s)) as [? [?|]]|];
      destruct lnprob0; reflexivity. }
  split; [exact E|]. intros s' ->. rewrite E. cbn.
  unfold set_random_state, RandomState_set_state; unfold_M.
  destruct rstate0 as [o|]; [destruct (rs_set_state o (_random s)) as [? [?|]]|];
    cbn; auto.
Qed.

(** ** The only way a well-formed [run] fails *)

Lemma np_setitem_Ok_bound {A} (a a' : list A) ind v :
  0 <= ind -> np_setitem a ind v = Ok a' -> ind < Z.of_nat (length a).
Proof.
  unfold np_setitem, np_index. intros Hi.
  destruct (Z.leb_spec 0 ind); [|lia]. cbn.
  destruct (Z.ltb_spec ind (Z.of_nat (length a))); cbn; [auto|].
  destruct (Z.ltb_spec ind 0); [lia|]. rewrite andb_false_r. discriminate.
Qed.

Lemma np_setitem_Raise {A} (a : list A) ind v e :
  np_setitem a ind v = Raise e -> e = IndexError.
Proof.
  unfold np_setitem. destruct (np_index _ ind); intros H; inversion H.
  reflexivity.
Qed.

(** The loop body raises nothing but [IndexError] when [thin] is not zero,
    and when it returns its write, if any, fell on an existing row. *)
Lemma sample_body_outcome thin store_chain i0 i p l s :
  thin <> 0 ->
  match sample_body thin store_chain i0 i p l s with
  | (_, Raise e) => e = IndexError /\ store_chain = true
  | (_, Ok _) =>
      store_chain = true -> i mod thin = 0 -> 0 <= i0 + i ÷ thin ->
      i0 + i ÷ thin < Z.of_nat (length (_chain s))
  end.
Proof.
  intros Ht.
  destruct (metropolis_step_stepped p l s) as (r & acc & [p' l'] & Hm).
  rewrite (sample_body_eq thin store_chain i0 i p l s r acc p' l' Hm).
  unfold store; unfold_M.
  destruct store_chain; [|cbn; discriminate].
  destruct (Z.eqb_spec thin 0); [contradiction|]. cbn.
  destruct (Z.eqb_spec (i mod thin) 0) as [Hz|Hz]; cbn; [|intros; lia].
  destruct (np_setitem (_chain s) (i0 + i ÷ thin) p') as [c'|e] eqn:Ec; cbn.
  - destruct (np_setitem (_lnprob s) (i0 + i ÷ thin) l') as [l1|e] eqn:El;
      cbn.
    + intros _ _ Hi. exact (np_setitem_Ok_bound _ _ _ _ Hi Ec).
    + split; [exact (np_setitem_Raise _ _ _ _ El)|reflexivity].
  - split; [exact (np_setitem_Raise _ _ _ _ Ec)|reflexivity].
Qed.

Lemma sample_loop_outcome thin store_chain i0 idx :
  thin <> 0 ->
  forall p l s,
    match sample_loop thin store_chain i0 idx p l s with
    | (_, Raise e) => e = IndexError /\ store_chain = true
    | (_, Ok _) =>
        store_chain = true ->
        Forall (fun i => i mod thin = 0 -> 0 <= i0 + i ÷ thin ->
                         i0 + i ÷ thin < Z.of_nat (length (_chain s))) idx
    end.
Proof.
  intros Ht. induction idx as [|i idx IH]; intros p l s; cbn.
  - intros _. constructor.
  - unfold bind.
    pose proof (sample_body_outcome thin store_chain i0 i p l s Ht) as Hb.
    pose proof (sample_body_same_len thin store_chain i0 i p l s) as [Hlen _].
    destruct (sample_body thin store_chain i0 i p l s)
      as [s1 [[[p' l'] y]|e]]; [|exact Hb].
    cbn in Hlen. specialize (IH p' l' s1).
    destruct (sample_loop thin store_chain i0 idx p' l' s1) as [s2 [ys|e]];
      [|exact IH].
    cbn. intros Hsc. constructor; [exact (Hb Hsc)|].
    rewrite <- Hlen. exact (IH Hsc).
Qed.

(** The prologue of a storing sequence with a sensible [thin] and [N]. *)
Lemma sample_prologue_store_Ok p lnprob rstate thin N s :
  thin <> 0 -> 0 <= N ÷ thin -> 0 <= dim s ->
  exists s0 l0,
    sample_prologue p lnprob rstate thin true N s
    = (s0, Ok (l0, iterations s)) /\
    length (_chain s0) = (length (_chain s) + Z.to_nat (N ÷ thin))%nat.
Proof.
  intros Ht HN Hd.
  unfold sample_prologue, set_random_state, RandomState_set_state, get_lnprob.
  unfold_M.
  destruct (Z.eqb_spec thin 0); [contradiction|].
  destruct rstate as [o|]; [destruct (rs_set_state o (_random s)) as [? [?|]]|];
    destruct lnprob; cbn;
    destruct (Z.ltb_spec (N ÷ thin) 0); try lia;
    destruct (Z.ltb_spec (dim s) 0); try lia; cbn;
    eexists _, _; (split; [reflexivity|]); cbn;
    rewrite length_app, np_zeros2_length; reflexivity.
Qed.

Lemma run_Ok_or_IndexError p N lnprob0 rstate0 thin store_chain s :
  0 <= dim s -> 0 < thin -> 0 < N ->
  (exists s' res,
      run (Some p) N lnprob0 rstate0 thin store_chain s = (s', Ok res)) \/
  (snd (run (Some p) N lnprob0 rstate0 thin store_chain s) = Raise IndexError
   /\ store_chain = true).
Proof.
  intros Hd Ht HN. rewrite run_with_position.
  destruct store_chain.
  - assert (Hq : 0 <= N ÷ thin).
    { rewrite Z.quot_div_nonneg by lia. apply Z.div_pos; lia. }
    destruct (sample_prologue_store_Ok p lnprob0 rstate0 thin N s
                ltac:(lia) Hq Hd) as (s0 & l0 & Hp & _).
    unfold sample. rewrite (bind_eq _ _ _ _ _ Hp).
    pose proof (sample_loop_outcome thin true (iterations s) (range N)
                  ltac:(lia) p l0 s0) as Ho.
    destruct (sample_loop thin true (iterations s) (range N) p l0 s0)
      as [s1 [ys|e]] eqn:El.
    + left. destruct (sample_loop_Ok_facts _ _ _ _ _ _ _ _ _ El) as (Hlen & _).
      rewrite range_length in Hlen.
      destruct ys as [|y ys]; [cbn in Hlen; lia|].
      destruct (last_bound_cons y ys) as [res Hres].
      unfold results in *. rewrite Hres. eauto.
    + right. destruct Ho as [-> _]. auto.
  - left. destruct (sample_no_store p lnprob0 rstate0 thin N s)
      as (s1 & ys & -> & Hlen).
    destruct ys as [|y ys]; [cbn in Hlen; lia|].
    destruct (last_bound_cons y ys) as [res Hres].
    unfold results in *. rewrite Hres. eauto.
Qed.

(** Once the sampler has counted more iterations than its chain has rows
    (after a run that did not store, or stored with [thin > 1]), every
    storing [run] raises [IndexError]: rows are looked for from index
    [self.iterations] on. *)
Theorem run_after_unstored_steps_IndexError p N lnprob0 rstate0 thin s :
  reachable s ->
  Z.of_nat (length (_chain s)) < iterations s ->
  0 < thin -> 0 < N ->
  snd (run (Some p) N lnprob0 rstate0 thin true s) = Raise IndexError.
Proof.
  intros Hr Hover Ht HN. destruct (reachable_inv s Hr) as [Hd _].
  destruct (run_Ok_or_IndexError p N lnprob0 rstate0 thin true s Hd Ht HN)
    as [(s' & res & H)|[H _]]; [exfalso|exact H].
  rewrite run_with_position in H.
  assert (Hq : N ÷ thin = N / thin) by (apply Z.quot_div_nonneg; lia).
  assert (Hq0 : 0 <= N ÷ thin) by (rewrite Hq; apply Z.div_pos; lia).
  destruct (sample_prologue_store_Ok p lnprob0 rstate0 thin N s
              ltac:(lia) Hq0 Hd) as (s0 & l0 & Hp & Hlen0).
  unfold sample in H. rewrite (bind_eq _ _ _ _ _ Hp) in H.
  pose proof (sample_loop_outcome thin true (iterations s) (range N)
                ltac:(lia) p l0 s0) as Ho.
  destruct (sample_loop thin true (iterations s) (range N) p l0 s0)
    as [s1 [ys|e]]; [|discriminate].
  specialize (Ho eq_refl). rewrite Forall_forall in Ho.
  (* the last stored step of the call *)
  set (i := thin * ((N - 1) / thin)).
  assert (Hdiv : 0 <= (N - 1) / thin) by (apply Z.div_pos; lia).
  assert (Hi : 0 <= i <= N - 1).
  { unfold i. split; [nia|]. apply Z.mul_div_le. lia. }
  assert (Hin : In i (range N)).
  { unfold range. apply in_map_iff. exists (Z.to_nat i).
    split; [lia|]. apply in_seq. lia. }
  assert (Hmod : i mod thin = 0).
  { unfold i. rewrite Z.mul_comm. apply Z.mod_mul. lia. }
  assert (Hiq : i ÷ thin = (N - 1) / thin).
  { unfold i. rewrite Z.mul_comm, Z.quot_mul by lia. reflexivity. }
  specialize (Ho i Hin Hmod). rewrite Hiq, Hlen0, Nat2Z.inj_add in Ho.
  rewrite Z2Nat.id, Hq in Ho by lia.
  assert (Hle : N / thin <= (N - 1) / thin + 1).
  { rewrite <- (Z.div_add (N - 1) 1 thin) by lia.
    apply Z.div_le_mono; lia. }
  lia.
Qed.

(** ** Positions and their log-probabilities *)

Lemma metropolis_step_lnprob p l s s1 p' l' :
  l = lnprobfn s p (args s) (kwargs s) ->
  metropolis_step p l s = (s1, Ok (p', l')) ->
  l' = lnprobfn s p' (args s) (kwargs s).
Proof.
  intros Hl. rewrite metropolis_step_eq.
  destruct (proposal p s) as [q r1]; cbn.
  destruct (_ <? 0)%float.
  - destruct (rs_rand r1) as [u r2].
    destruct (0 <? _)%float; intros H; inversion H; subst; reflexivity.
  - destruct (0 <? _)%float; intros H; inversion H; subst; reflexivity.
Qed.

Lemma sample_loop_lnprob thin store_chain i0 idx :
  forall p l s s' ys,
    l = lnprobfn s p (args s) (kwargs s) ->
    sample_loop thin store_chain i0 idx p l s = (s', Ok ys) ->
    Forall (lnprob_of_position s) ys.
Proof.
  induction idx as [|i idx IH]; intros p l s s' ys Hl; cbn.
  - unfold ret. intros H; inversion H. constructor.
  - intros H.
    apply bind_Ok_inv in H. destruct H as (s1 & [[p' l'] y] & Hb & H).
    apply bind_Ok_inv in H. destruct H as (s2 & ys' & Hloop & H).
    unfold ret in H. inversion H; subst s2 ys. clear H.
    destruct (sample_body_yield _ _ _ _ _ _ _ _ _ _ _ Hb) as [Hy _].
    pose proof (sample_body_kept thin store_chain i0 i p l s) as Hk.
    rewrite Hb in Hk. cbn in Hk. destruct Hk as (_ & Hf & Ha & Hkw & _).
    assert (Hl' : l' = lnprobfn s p' (args s) (kwargs s)).
    { revert Hb. unfold sample_body. intros Hb.
      apply bind_Ok_inv in Hb. destruct Hb as (t & [p1 l1] & Hm & Hb).
      apply bind_Ok_inv in Hb. destruct Hb as (t' & [] & _ & Hb).
      pose proof (metropolis_step_lnprob _ _ _ _ _ _ Hl Hm) as Hx.
      revert Hb. unfold random_state; unfold_M. intros Hb; inversion Hb.
      congruence. }
    constructor.
    + subst y. exact Hl'.
    + assert (IH' := IH p' l' s1 s' ys').
      unfold lnprob_of_position in *. rewrite Hf, Ha, Hkw in IH'.
      apply IH'; [exact Hl'|exact Hloop].
Qed.

(** Every triple [sample] yields carries the log-density of its own
    position, as the callback gives it, when the starting log-probability
    is omitted or is the log-density of the starting position. *)
Theorem sample_yields_lnprob p lnprob rstate thin store_chain iters s s' ys :
  (forall l, lnprob = Some l -> l = lnprobfn s p (args s) (kwargs s)) ->
  sample p lnprob rstate thin store_chain iters s = (s', Ok ys) ->
  Forall (lnprob_of_position s) ys.
Proof.
  intros Hl H. unfold sample in H.
  apply bind_Ok_inv in H. destruct H as (s0 & [l0 i0] & Hp & Hloop).
  pose proof (sample_prologue_kept p lnprob rstate thin store_chain iters s)
    as Hk.
  rewrite Hp in Hk. cbn in Hk. destruct Hk as (_ & Hf & Ha & Hkw & _).
  assert (Hl0 : l0 = lnprobfn s p (args s) (kwargs s)).
  { revert Hp. unfold sample_prologue, set_random_state,
      RandomState_set_state, get_lnprob; unfold_M.
    destruct rstate as [o|]; [destruct (rs_set_state o (_random s)) as [? [?|]]|];
      destruct lnprob as [l1|]; cbn; destruct store_chain; cbn;
      try (intros E; inversion E; subst; auto; fail);
      destruct (thin =? 0); cbn; try discriminate;
      destruct ((iters ÷ thin <? 0) || _); cbn; try discriminate;
      intros E; inversion E; subst; auto. }
  pose proof (sample_loop_lnprob thin store_chain i0 (range iters) p l0 s0 s'
                ys) as HF.
  unfold lnprob_of_position in *. rewrite Hf, Ha, Hkw in HF.
  apply HF; [exact Hl0|exact Hloop].
Qed.

(** ** [acceptance_fraction] *)

(** [acceptance_fraction] raises [ZeroDivisionError] on a sampler that has
    just been constructed or reset, and is defined after any [run] that
    returned; it changes nothing. *)
Theorem acceptance_fraction_defined :
  (forall cov0 dim0 f a k r0 s,
      MetropolisSampler_init cov0 dim0 f a k r0 = (s, Ok tt) ->
      acceptance_fraction s = (s, Raise ZeroDivisionError)) /\
  (forall s s',
      reset s = (s', Ok tt) ->
      acceptance_fraction s' = (s', Raise ZeroDivisionError)) /\
  (forall s p0 N lnprob0 rstate0 thin store_chain s' res,
      reachable s ->
      run p0 N lnprob0 rstate0 thin store_chain s = (s', Ok res) ->
      acceptance_fraction s' =
      (s', Ok (float_of_int (accepted s') / float_of_int (iterations s'))%float)).
Proof.
  split; [|split].
  - intros cov0 dim0 f a k r0 s H. apply init_Ok in H. destruct H as [_ ->].
    reflexivity.
  - intros s s'. unfold reset; unfold_M.
    destruct (dim s <? 0); cbn; intros H; inversion H. reflexivity.
  - intros s p0 N lnprob0 rstate0 thin store_chain s' res Hr H.
    destruct (run_Ok_iterations _ _ _ _ _ _ _ _ _ H) as [HN Hi].
    pose proof (reachable_counters s Hr) as Hc.
    unfold acceptance_fraction; unfold_M.
    destruct (Z.eqb_spec (iterations s') 0); [lia|reflexivity].
Qed.

End Properties.

(** * [utilities.ball] *)

Section BallProperties.

Variable G : Type.
Variable np_random_normal : G -> nat -> list float * G.

(** [np.random.normal(size=n)] returns [n] variates. *)
Hypothesis normal_size :
  forall g n, length (fst (np_random_normal g n)) = n.

Lemma perturb_length p0 sigma x :
  length x = length p0 -> length (perturb p0 sigma x) = length p0.
Proof.
  intros H. unfold perturb. rewrite length_map, length_combine, H.
  apply Nat.min_id.
Qed.

Lemma ball_loop_shape idx p0 sigma :
  forall g,
    length (fst (ball_loop np_random_normal idx p0 sigma g)) = length idx /\
    Forall (fun b => length b = length p0)
           (fst (ball_loop np_random_normal idx p0 sigma g)).
Proof.
  induction idx as [|i idx IH]; intros g; cbn; [split; constructor|].
  pose proof (normal_size g (length p0)) as Hn.
  destruct (np_random_normal g (length p0)) as [x g1]. cbn in Hn.
  destruct (IH g1) as [Hlen Hall].
  destruct (ball_loop np_random_normal idx p0 sigma g1) as [rest g2].
  cbn in *. split; [congruence|].
  constructor; [apply perturb_length, Hn|exact Hall].
Qed.

(** [ball] returns [size] positions, each as long as [p0]; for
    [size <= 0] it returns the empty list and draws nothing. *)
Theorem ball_shape p0 sigma size g :
  length (fst (ball np_random_normal p0 sigma size g)) = Z.to_nat size /\
  Forall (fun b => length b = length p0)
         (fst (ball np_random_normal p0 sigma size g)) /\
  (size <= 0 -> ball np_random_normal p0 sigma size g = ([], g)).
Proof.
  unfold ball.
  destruct (ball_loop_shape (range size) p0 sigma g) as [Hlen Hall].
  rewrite range_length in Hlen. split; [exact Hlen|]. split; [exact Hall|].
  intros H. unfold range. replace (Z.to_nat size) with 0%nat by lia.
  reflexivity.
Qed.

End BallProperties.

(** * The theorems at work on the small numpy *)

Lemma toy_snapshot_law : snapshot_law (numpy := Toy.numpy).
Proof.
  intros r r'. cbn. unfold Toy.set_state, Toy.get_state.
  destruct (Z.leb_spec 0 (Z.of_nat r)); [|lia].
  rewrite Nat2Z.id. reflexivity.
Qed.

Lemma toy_reachable r : reachable (Toy.sampler0 r).
Proof.
  eapply (reach_init (numpy := Toy.numpy) (CovFloat 1%float) 1
            Toy.lnprob_gauss [] [] r).
  reflexivity.
Qed.

(** A flat log-density: every candidate ties with the current position,
    and four steps from [0.0] leave the chain at [0.0] with no acceptance. *)
Example flat_target_never_moves :
  let s := fst (run (numpy := Toy.numpy) (Some [0%float]) 4 None None 1 true
                    (Toy.flat0 1)) in
  _chain s = [[0%float]; [0%float]; [0%float]; [0%float]] /\
  accepted s = 0 /\ iterations s = 4.
Proof. vm_compute. repeat split. Qed.

Lemma metropolis_step_tie_rejects_witness :
  (0 <=? step_delta (numpy := Toy.numpy) [0%float] 0%float (Toy.flat0 1))%float
  = true /\
  metropolis_step (numpy := Toy.numpy) [0%float] 0%float (Toy.flat0 1) =
    (stepped (snd (proposal [0%float] (Toy.flat0 1))) false (Toy.flat0 1),
     Ok ([0%float], 0%float)) /\
  accepted (fst (metropolis_step (numpy := Toy.numpy) [0%float] 0%float
                   (Toy.flat0 1)))
  = accepted (Toy.flat0 1).
Proof.
  apply (metropolis_step_tie_rejects (numpy := Toy.numpy)
           [0%float] 0%float (Toy.flat0 1)).
  vm_compute. reflexivity.
Defined.

Lemma run_thin_IndexError_witness :
  snd (run (numpy := Toy.numpy) (Some [0%float]) 3 None None 2 true
           (Toy.sampler0 1)) = Raise IndexError /\
  length (_chain (fst (run (numpy := Toy.numpy) (Some [0%float]) 3 None None
                           2 true (Toy.sampler0 1))))
  = (length (_chain (Toy.sampler0 1)) + Z.to_nat (3 / 2))%nat.
Proof.
  apply (run_thin_IndexError (numpy := Toy.numpy) (Toy.sampler0 1)
           [0%float] 3 2).
  - apply toy_reachable.
  - reflexivity.
  - lia.
  - lia.
  - vm_compute. discriminate.
Defined.

(** After [run(p0, 4, thin=2)] on a new sampler, [run(None, 4, thin=2)]
    raises [IndexError]: it writes to row [self.iterations = 4] of a chain
    of four rows, of which the last two stay zero. *)
Example resume_thin2_IndexError :
  let s1 := fst (run (numpy := Toy.numpy) (Some [0%float]) 4 None None 2 true
                     (Toy.sampler0 1)) in
  let x := run (numpy := Toy.numpy) None 4 None None 2 true s1 in
  iterations s1 = 4 /\ length (_chain s1) = 2%nat /\
  snd x = Raise IndexError /\ length (_chain (fst x)) = 4%nat.
Proof. vm_compute. repeat split. Qed.

Lemma run_resume_witness :
  exists s1 res1 s2 res2 ys1 ys2,
    run (numpy := Toy.numpy) (Some [0%float]) 2 None None 1 true
        (Toy.sampler0 1) = (s1, Ok res1) /\
    run None 3 None None 1 true s1 = (s2, Ok res2) /\
    run (Some [0%float]) (2 + 3) None None 1 true (Toy.sampler0 1)
    = (s2, Ok res2) /\
    snd (sample [0%float] None None 1 true 2 (Toy.sampler0 1)) = Ok ys1 /\
    snd (sample (fst (fst res1)) (Some (snd (fst res1))) (Some (snd res1))
                1 true 3 s1) = Ok ys2 /\
    snd (sample [0%float] None None 1 true (2 + 3) (Toy.sampler0 1))
    = Ok (ys1 ++ ys2).
Proof.
  apply (run_resume (numpy := Toy.numpy) toy_snapshot_law (Toy.sampler0 1)
           [0%float] 2 3).
  - apply toy_reachable.
  - reflexivity.
  - lia.
  - lia.
Defined.

Lemma toy_same_start :
  same_start (numpy := Toy.numpy) (Toy.sampler0 1)
             (set_accepted 5 (Toy.sampler0 9)).
Proof. repeat split. Qed.

Lemma sample_replay_witness :
  snd (sample (numpy := Toy.numpy) [0%float] (Some 0%float)
              (Some (@rs_get_state Toy.numpy 3%nat)) 1 true 4
              (Toy.sampler0 1)) =
  snd (sample (numpy := Toy.numpy) [0%float] (Some 0%float)
              (Some (@rs_get_state Toy.numpy 3%nat)) 1 true 4
              (set_accepted 5 (Toy.sampler0 9))).
Proof.
  apply (sample_replay (numpy := Toy.numpy) toy_snapshot_law
           (Toy.sampler0 1) (set_accepted 5 (Toy.sampler0 9)) 3%nat
           [0%float] (Some 0%float) 1 true 4 toy_same_start).
Defined.

Lemma metropolis_step_draws_witness :
  metropolis_step (numpy := Toy.numpy) [0%float] 0%float (Toy.sampler0 1) =
  (stepped (snd (rs_rand (snd (proposal [0%float] (Toy.sampler0 1)))))
           true (Toy.sampler0 1),
   Ok ([(-1)%float], (-0.5)%float)).
Proof.
  apply (proj1 (metropolis_step_draws (numpy := Toy.numpy) [0%float] 0%float
                  (Toy.sampler0 1))).
  vm_compute. reflexivity.
Defined.

Lemma run_position_omitted_witness :
  run (numpy := Toy.numpy) None 3 None None 1 true (Toy.sampler0 1)
  = (Toy.sampler0 1, Raise ValueError).
Proof.
  apply (proj1 (run_position_omitted (numpy := Toy.numpy))). reflexivity.
Defined.

Lemma random_state_setter_swallows_witness :
  set_random_state (numpy := Toy.numpy) (Some (-1)) (Toy.sampler0 1)
  = (Toy.sampler0 1, Ok tt) /\
  set_random_state (numpy := Toy.numpy)
                   (Some (@rs_get_state Toy.numpy 7%nat)) (Toy.sampler0 1)
  = (set_random (numpy := Toy.numpy) 7%nat (Toy.sampler0 1), Ok tt).
Proof.
  destruct (random_state_setter_swallows (numpy := Toy.numpy)
              toy_snapshot_law) as (_ & _ & _ & _ & Hrej & Hget & _).
  split; [|apply Hget].
  apply (Hrej (-1) (Toy.sampler0 1) ValueError). reflexivity.
Defined.

(** numpy's [set_state] on the generator's fields: the copy of a key that
    is long enough overwrites the words one by one and raises nothing. *)
Lemma copy_key_seq n : forall pre src dst,
  length src = length dst -> (n <= length src)%nat ->
  Mt19937.copy_key (seq (length pre) n) (pre ++ src) (pre ++ dst)
  = (pre ++ firstn n src ++ skipn n dst, None).
Proof.
  induction n as [|n IH]; intros pre src dst Hlen Hn.
  - reflexivity.
  - destruct src as [|w src]; [cbn in Hn; lia|].
    destruct dst as [|d dst]; [discriminate Hlen|].
    cbn [seq Mt19937.copy_key].
    rewrite nth_error_app2, Nat.sub_diag by lia. cbn [nth_error].
    rewrite list_set_middle.
    replace (S (length pre)) with (length (pre ++ [w]))
      by (rewrite length_app; cbn; lia).
    replace (pre ++ w :: src) with ((pre ++ [w]) ++ src)
      by (rewrite <- app_assoc; reflexivity).
    replace (pre ++ w :: dst) with ((pre ++ [w]) ++ dst)
      by (rewrite <- app_assoc; reflexivity).
    rewrite IH by (cbn in *; lia).
    rewrite <- app_assoc. reflexivity.
Qed.

(** [set_state(get_state())] on numpy's generator: a snapshot restores the
    generator it was taken from, whatever the generator it is given to. *)
Lemma mt19937_snapshot_restores g g' :
  length (Mt19937.key g) = 624%nat -> length (Mt19937.key g') = 624%nat ->
  Mt19937.set_state (Mt19937.get_state g) g' = (g, None).
Proof.
  intros Hg Hg'. unfold Mt19937.set_state, Mt19937.get_state.
  cbn [Mt19937.st_name Mt19937.st_key Mt19937.st_pos Mt19937.st_has_gauss
       Mt19937.st_gauss Mt19937.key Mt19937.pos Mt19937.has_gauss
       Mt19937.gauss].
  rewrite String.eqb_refl. cbn [negb].
  pose proof (copy_key_seq 624 [] (Mt19937.key g) (Mt19937.key g')) as H.
  cbn [length app] in H. rewrite H by lia.
  rewrite <- Hg at 1. rewrite firstn_all.
  rewrite <- Hg'. rewrite skipn_all, app_nil_r.
  destruct g; reflexivity.
Qed.

(** C7 as the claim has it fails. [s.random_state = ('MT19937', key, 0, 1,
    0.5)] with a key of three words: numpy's [set_state] raises
    [IndexError], the setter swallows it, and the generator is not the one
    from before the call: the cached Gaussian and the first three key words
    are those of the rejected tuple. *)
Lemma random_state_setter_keeps_partial_write :
  snd (RandomState_set_state (numpy := Mt19937.numpy)
         (Some Mt19937.short_key) Mt19937.sampler0) = Raise IndexError /\
  snd (set_random_state (numpy := Mt19937.numpy)
         (Some Mt19937.short_key) Mt19937.sampler0) = Ok tt /\
  _random (fst (set_random_state (numpy := Mt19937.numpy)
                  (Some Mt19937.short_key) Mt19937.sampler0))
  = Mt19937.mk_rk_state ([1; 2; 3] ++ repeat 0 621) 624 1 0.5%float /\
  _random Mt19937.sampler0 = Mt19937.mk_rk_state (repeat 0 624) 624 0 0%float /\
  _random (fst (set_random_state (numpy := Mt19937.numpy)
                  (Some Mt19937.short_key) Mt19937.sampler0))
  <> _random Mt19937.sampler0.
Proof.
  split; [vm_compute; reflexivity|].
  split; [reflexivity|].
  split; [vm_compute; reflexivity|].
  split; [vm_compute; reflexivity|].
  intros H. apply (f_equal Mt19937.has_gauss) in H. vm_compute in H.
  discriminate H.
Qed.

Lemma chain_lnprob_parity_witness :
  length (_chain (fst (run (numpy := Toy.numpy) (Some [0%float]) 5 None None
                           2 false (Toy.sampler0 1)))) =
  length (_lnprob (fst (run (numpy := Toy.numpy) (Some [0%float]) 5 None None
                            2 false (Toy.sampler0 1)))).
Proof.
  apply (chain_lnprob_parity (numpy := Toy.numpy)).
  apply reach_run, toy_reachable.
Defined.

Lemma reset_clears_witness :
  exists s',
    reset (fst (run (numpy := Toy.numpy) (Some [0%float]) 4 None None 1 true
                    (Toy.sampler0 1))) = (s', Ok tt) /\
    _chain s' = [] /\ _lnprob s' = [] /\
    iterations s' = 0 /\ accepted s' = 0 /\ _last_run s' = None /\
    _random s' = 12%nat /\
    dim s' = 1 /\ lnprobfn s' = Toy.lnprob_gauss /\ args s' = [] /\
    kwargs s' = [] /\ cov s' = CovFloat 1%float.
Proof.
  apply (reset_clears (numpy := Toy.numpy)
           (fst (run (numpy := Toy.numpy) (Some [0%float]) 4 None None 1 true
                     (Toy.sampler0 1)))).
  apply reach_run, toy_reachable.
Defined.

Lemma run_zero_iterations_witness :
  exists s' e,
    run (numpy := Toy.numpy) (Some [0%float]) 0 None None 1 true
        (Toy.sampler0 1) = (s', Raise e) /\
    _last_run s' = _last_run (Toy.sampler0 1) /\
    (Some [0%float] <> None \/ _last_run (Toy.sampler0 1) <> None ->
     true = false \/ 1 <> 0 ->
     e = UnboundLocalError).
Proof.
  apply (run_zero_iterations (numpy := Toy.numpy) (Toy.sampler0 1)
           (Some [0%float]) None None 1 true).
  apply toy_reachable.
Defined.

(** ** More of the sampler, on the small numpy *)

Lemma toy_unstored_reachable : reachable toy_unstored.
Proof. apply reach_run, toy_reachable. Qed.

Lemma accepted_le_iterations_witness :
  0 <= accepted toy_unstored <= iterations toy_unstored /\
  forall p0 N lnprob0 rstate0 thin store_chain,
    counted toy_unstored
            (fst (run p0 N lnprob0 rstate0 thin store_chain toy_unstored)).
Proof.
  apply (accepted_le_iterations (numpy := Toy.numpy) toy_unstored).
  apply toy_unstored_reachable.
Defined.

Lemma run_Ok_facts_witness :
  0 < 4 /\
  iterations (fst (run (numpy := Toy.numpy) (Some [0%float]) 4 None None 1
                       true (Toy.sampler0 1)))
  = iterations (Toy.sampler0 1) + 4 /\
  accepted (Toy.sampler0 1)
  <= accepted (fst (run (numpy := Toy.numpy) (Some [0%float]) 4 None None 1
                        true (Toy.sampler0 1)))
  <= accepted (Toy.sampler0 1) + 4 /\
  _last_run (fst (run (numpy := Toy.numpy) (Some [0%float]) 4 None None 1
                      true (Toy.sampler0 1)))
  = Some ([(-0.5)%float], (-0.125)%float, 12) /\
  random_state (fst (run (numpy := Toy.numpy) (Some [0%float]) 4 None None 1
                         true (Toy.sampler0 1)))
  = (fst (run (numpy := Toy.numpy) (Some [0%float]) 4 None None 1 true
              (Toy.sampler0 1)), Ok 12).
Proof.
  apply (run_Ok_facts (numpy := Toy.numpy) (Some [0%float]) 4 None None 1 true
           (Toy.sampler0 1)
           (fst (run (numpy := Toy.numpy) (Some [0%float]) 4 None None 1 true
                     (Toy.sampler0 1)))
           ([(-0.5)%float], (-0.125)%float, 12)).
  vm_compute. reflexivity.
Defined.

Lemma run_Raise_keeps_checkpoint_witness :
  _last_run (fst (run (numpy := Toy.numpy) (Some [0%float]) 3 None None 2 true
                      (Toy.sampler0 1)))
  = _last_run (Toy.sampler0 1).
Proof.
  apply (run_Raise_keeps_checkpoint (numpy := Toy.numpy) (Some [0%float]) 3
           None None 2 true (Toy.sampler0 1) IndexError).
  vm_compute. reflexivity.
Defined.

Lemma run_with_position_ignores_checkpoint_witness :
  run (numpy := Toy.numpy) (Some [0%float]) 3 None None 1 true
      (set_last_run (numpy := Toy.numpy) (Some ([1%float], 0%float, 5))
                    (Toy.sampler0 1)) =
  run (numpy := Toy.numpy) (Some [0%float]) 3 None None 1 true
      (Toy.sampler0 1).
Proof.
  apply (proj2 (run_with_position_ignores_checkpoint (numpy := Toy.numpy)
                  [0%float] 3 None None 1 true
                  (Some ([1%float], 0%float, 5)) (Toy.sampler0 1))).
  vm_compute. reflexivity.
Defined.

Lemma problem_definition_kept_witness :
  (dim toy_unstored, lnprobfn toy_unstored, args toy_unstored,
   kwargs toy_unstored, cov toy_unstored)
  = (dim (Toy.sampler0 1), lnprobfn (Toy.sampler0 1), args (Toy.sampler0 1),
     kwargs (Toy.sampler0 1), cov (Toy.sampler0 1)).
Proof.
  destruct (problem_definition_kept (numpy := Toy.numpy) (Toy.sampler0 1))
    as (_ & _ & _ & Hrun).
  apply (Hrun (Some [0%float]) 2 None None 1 false toy_unstored).
  reflexivity.
Defined.

Lemma run_nonpositive_witness :
  exists s' e,
    run (numpy := Toy.numpy) (Some [0%float]) (-3) None None 2 true
        (Toy.sampler0 1) = (s', Raise e) /\
    _last_run s' = _last_run (Toy.sampler0 1) /\
    iterations s' = iterations (Toy.sampler0 1) /\
    accepted s' = accepted (Toy.sampler0 1).
Proof.
  apply (run_nonpositive (numpy := Toy.numpy) (Some [0%float]) (-3) None None
           2 true (Toy.sampler0 1)).
  lia.
Defined.

Lemma run_without_storing_witness :
  exists s' res,
    run (numpy := Toy.numpy) (Some [0%float]) 3 None None 0 false
        (Toy.sampler0 1) = (s', Ok res) /\
    _chain s' = _chain (Toy.sampler0 1) /\
    _lnprob s' = _lnprob (Toy.sampler0 1) /\
    iterations s' = iterations (Toy.sampler0 1) + 3.
Proof.
  apply (run_without_storing (numpy := Toy.numpy) [0%float] 3 None None 0
           (Toy.sampler0 1)).
  lia.
Defined.

Lemma run_thin_zero_witness :
  run (numpy := Toy.numpy) (Some [0%float]) 3 None (Some 7) 0 true
      (Toy.sampler0 1)
  = (fst (set_random_state (numpy := Toy.numpy) (Some 7) (Toy.sampler0 1)),
     Raise ZeroDivisionError).
Proof.
  apply (proj1 (run_thin_zero (numpy := Toy.numpy) [0%float] 3 None (Some 7)
                  (Toy.sampler0 1))).
Defined.

Lemma run_after_unstored_steps_IndexError_witness :
  snd (run (numpy := Toy.numpy) (Some [0%float]) 5 None None 1 true
           toy_unstored) = Raise IndexError.
Proof.
  apply (run_after_unstored_steps_IndexError (numpy := Toy.numpy) [0%float] 5
           None None 1 toy_unstored).
  - apply toy_unstored_reachable.
  - vm_compute. reflexivity.
  - lia.
  - lia.
Defined.

Lemma run_thin_divides_witness :
  exists s' res ys,
    run (numpy := Toy.numpy) (Some [0%float]) 4 None None 2 true
        (Toy.sampler0 1) = (s', Ok res) /\
    snd (sample [0%float] None None 2 true 4 (Toy.sampler0 1)) = Ok ys /\
    length ys = Z.to_nat 4 /\
    _chain s' = _chain (Toy.sampler0 1)
                ++ map (fun y => fst (fst y)) (stored 2 (range 4) ys) /\
    _lnprob s' = _lnprob (Toy.sampler0 1)
                 ++ map (fun y => snd (fst y)) (stored 2 (range 4) ys) /\
    length (stored 2 (range 4) ys) = Z.to_nat (4 / 2).
Proof.
  apply (run_thin_divides (numpy := Toy.numpy) (Toy.sampler0 1) [0%float]
           4 2).
  - apply toy_reachable.
  - reflexivity.
  - lia.
  - lia.
  - reflexivity.
Defined.

Lemma sample_yields_lnprob_witness :
  Forall (lnprob_of_position (Toy.sampler0 1))
         match snd (sample (numpy := Toy.numpy) [0%float] None None 1 true 2
                           (Toy.sampler0 1)) with
         | Ok ys => ys
         | Raise _ => []
         end.
Proof.
  apply (sample_yields_lnprob (numpy := Toy.numpy) [0%float] None None 1 true
           2 (Toy.sampler0 1)
           (fst (sample (numpy := Toy.numpy) [0%float] None None 1 true 2
                        (Toy.sampler0 1)))).
  - intros l H. discriminate H.
  - vm_compute. reflexivity.
Defined.

Lemma acceptance_fraction_defined_witness :
  acceptance_fraction (Toy.sampler0 1)
  = (Toy.sampler0 1, Raise ZeroDivisionError) /\
  acceptance_fraction
    (fst (run (numpy := Toy.numpy) (Some [0%float]) 4 None None 1 true
              (Toy.sampler0 1)))
  = (fst (run (numpy := Toy.numpy) (Some [0%float]) 4 None None 1 true
              (Toy.sampler0 1)), Ok 0.5%float).
Proof.
  destruct (acceptance_fraction_defined (numpy := Toy.numpy))
    as (Hinit & _ & Hrun).
  split.
  - apply (Hinit (CovFloat 1%float) 1 Toy.lnprob_gauss [] [] 1%nat).
    reflexivity.
  - rewrite (Hrun (Toy.sampler0 1) (Some [0%float]) 4 None None 1 true
               (fst (run (numpy := Toy.numpy) (Some [0%float]) 4 None None 1
                         true (Toy.sampler0 1)))
               ([(-0.5)%float], (-0.125)%float, 12) (toy_reachable 1)).
    + vm_compute. reflexivity.
    + vm_compute. reflexivity.
Defined.

Lemma toy_normal_size :
  forall g n, length (fst (ToyGlobal.normal g n)) = n.
Proof. intros g n. cbn. rewrite length_map, length_seq. reflexivity. Qed.

Lemma ball_shape_witness :
  length (fst (ball ToyGlobal.normal [0%float; 1%float] 2%float 3 1%nat))
  = Z.to_nat 3 /\
  Forall (fun b => length b = length [0%float; 1%float])
         (fst (ball ToyGlobal.normal [0%float; 1%float] 2%float 3 1%nat)) /\
  (3 <= 0 ->
   ball ToyGlobal.normal [0%float; 1%float] 2%float 3 1%nat = ([], 1%nat)).
Proof.
  apply (ball_shape nat ToyGlobal.normal toy_normal_size).
Defined.

Lemma sample_yields_every_step_witness :
  length match snd (sample (numpy := Toy.numpy) [0%float] None None 3 true 6
                           (Toy.sampler0 1)) with
         | Ok ys => ys
         | Raise _ => []
         end = Z.to_nat 6.
Proof.
  apply (sample_yields_every_step (numpy := Toy.numpy) [0%float] None None 3
           true 6 (Toy.sampler0 1)
           (fst (sample (numpy := Toy.numpy) [0%float] None None 3 true 6
                        (Toy.sampler0 1)))).
  vm_compute. reflexivity.
Defined.
